(** * call_mcp_remote: the tool-call bridge of mcp-call-proxy

    A shallow embedding of [src/call_mcp_remote.py]: the session registry
    ([MCPClient.connect_to_sse_servers], [MCPClient.cleanup]), the flat tool
    namespace and the conversation loop ([MCPClient.process_query]) and the
    request handler ([handle_query]), followed by the properties of the
    specification (C1 to C10) that hold of them, and the inputs on which
    the others fail.

    Conventions of the embedding.
    - A Python [str] is a [string]: the sequence of its bytes.  On such
      strings the class [\d] of the identifier pattern is read as the ASCII
      digits [0-9]; [.] is every character but the line feed.
    - A Python [dict] is an insertion-ordered association list ([dict]).
    - Exceptions are values of [exn]; only instances of [Exception] are
      represented, which is what the [except Exception] clauses of the
      source catch.
    - The collaborators (SSE transport, provider sessions, model backend,
      [json], the deadline of [asyncio.wait_for]) are the fields of a
      [World].
    - A method of the client is a function of [self] that returns how it
      ended ([outcome]), the client it leaves, and the list of the effects
      it performed ([event]), oldest first.  Only [logger.error] is
      recorded among the log calls.
    - The [while] loop of [process_query] has no bound of its own; the
      embedding gives it [fuel], the number of turns it may take, and ends
      in [Pending] when the fuel is spent. *)

From Stdlib Require Import Strings.String Strings.Ascii Lists.List NArith.NArith
  Arith.PeanoNat Bool.Bool micromega.Lia Numbers.DecimalString
  Numbers.DecimalN Numbers.DecimalFacts Init.Decimal.
Import ListNotations.

Local Open Scope string_scope.
Local Open Scope list_scope.

(** ** Exceptions *)

Inductive exn : Type :=
| HTTPException (status_code : N) (detail : string)
| TimeoutError (msg : string)         (* asyncio.TimeoutError *)
| KeyError (key : string)
| IndexError                          (* list index out of range *)
| Error (msg : string).               (* any other Exception; [msg] is its str() *)

(** [f"{n}"] for a non-negative integer. *)
Definition str_int (n : N) : string :=
  NilEmpty.string_of_uint (N.to_uint n).

(** [str(e)].  [HTTPException.__str__] is Starlette's
    [f"{self.status_code}: {self.detail}"]; [str(KeyError(k))] is [repr(k)],
    written here for a key that needs no escape. *)
Definition str_exn (e : exn) : string :=
  match e with
  | HTTPException status_code detail => str_int status_code ++ ": " ++ detail
  | TimeoutError msg => msg
  | KeyError key => "'" ++ key ++ "'"
  | IndexError => "list index out of range"
  | Error msg => msg
  end.

Definition status_of (e : exn) : option N :=
  match e with
  | HTTPException status_code _ => Some status_code
  | _ => None
  end.

(** ** Insertion-ordered dictionaries *)

Module Dict.

Definition dict (V : Type) : Type := list (string * V).

Definition keys {V} (d : dict V) : list string := map fst d.

Fixpoint get {V} (d : dict V) (k : string) : option V :=
  match d with
  | [] => None
  | (k', v) :: d' => if String.eqb k' k then Some v else get d' k
  end.

(** [d[k] = v]: an existing key keeps its position, a new key goes last. *)
Fixpoint set {V} (d : dict V) (k : string) (v : V) : dict V :=
  match d with
  | [] => [(k, v)]
  | (k', v') :: d' =>
      if String.eqb k' k then (k', v) :: d' else (k', v') :: set d' k v
  end.

Definition is_empty {V} (d : dict V) : bool :=
  match d with [] => true | _ => false end.

End Dict.
Import Dict.

(** ** The flat tool namespace *)

(** [f"server_{server_idx}_{tool.name}"] (source line 86). *)
Definition mangle (server_idx : N) (tool_name : string) : string :=
  "server_" ++ str_int server_idx ++ "_" ++ tool_name.

Definition is_digit (c : ascii) : bool :=
  let n := N_of_ascii c in (48 <=? n)%N && (n <=? 57)%N.

Definition digit_value (c : ascii) : N := (N_of_ascii c - 48)%N.

Definition is_newline (c : ascii) : bool := (N_of_ascii c =? 10)%N.

Fixpoint string_forall (p : ascii -> bool) (s : string) : bool :=
  match s with
  | EmptyString => true
  | String c r => p c && string_forall p r
  end.

Definition not_newline (c : ascii) : bool := negb (is_newline c).

(** The longest prefix of [s] whose characters satisfy [p], and the rest:
    what a greedy [p+] takes first. *)
Fixpoint span (p : ascii -> bool) (s : string) : string * string :=
  match s with
  | EmptyString => (EmptyString, EmptyString)
  | String c r =>
      if p c then let (a, b) := span p r in (String c a, b)
      else (EmptyString, s)
  end.

Fixpoint strip_prefix (pre s : string) : option string :=
  match pre, s with
  | EmptyString, _ => Some s
  | String a pre', String b s' =>
      if Ascii.eqb a b then strip_prefix pre' s' else None
  | String _ _, EmptyString => None
  end.

(** [int(digits)] on a string of ASCII digits, without the bound that
    recent interpreters put on the number of digits. *)
Fixpoint int_of_digits (acc : N) (s : string) : N :=
  match s with
  | EmptyString => acc
  | String c r => int_of_digits (10 * acc + digit_value c)%N r
  end.

(** [re.match(r"server_(\d+)_(.+)", name)] (source line 132), returning
    [(group(1), group(2))].  The match is anchored at the start only.
    [\d+] is greedy; giving back digits never helps, since the character
    after a shorter run is a digit and not ["_"].  [.+] is greedy and stops
    at the first line feed or at the end; the rest of the name is ignored. *)
Definition re_match (name : string) : option (string * string) :=
  match strip_prefix "server_" name with
  | None => None
  | Some rest =>
      let (digits, rest1) := span is_digit rest in
      match digits, rest1 with
      | String _ _, String u rest2 =>
          if Ascii.eqb u "_"%char then
            let (tool_name, _) := span not_newline rest2 in
            match tool_name with
            | EmptyString => None
            | String _ _ => Some (digits, tool_name)
            end
          else None
      | _, _ => None
      end
  end.

(** The pair decoded from a flat identifier:
    [(int(match.group(1)), match.group(2))] (source lines 138-141). *)
Definition parse_flat (name : string) : option (N * string) :=
  match re_match name with
  | Some (server_index, tool_name) =>
      Some (int_of_digits 0 server_index, tool_name)
  | None => None
  end.

(** The local tool names the pattern can give back whole: at least one
    character, and no line feed. *)
Definition plain_name (tool_name : string) : bool :=
  negb (String.eqb tool_name "") && string_forall not_newline tool_name.

(** ** Data model *)

(** A decoded JSON value ([json.loads]): tool arguments and input schemas. *)
#[local] Set Warnings "-register-all".
Inductive json : Type :=
| JNull
| JBool (b : bool)
| JNumber (literal : string)
| JString (s : string)
| JArray (items : list json)
| JObject (members : list (string * json)).

(** [mcp.Tool]. *)
Record Tool : Type := {
  name : string;
  description : option string;
  inputSchema : json
}.

(** [MCPConfig.mcpServers : Dict[str, Dict[str, str]]]. *)
Record MCPConfig : Type := { mcpServers : dict (dict string) }.

Record UserQuery : Type := { query : string; mcp_config : MCPConfig }.

(** A [ClientSession] object, identified by the provider it was opened for.
    The [AsyncExitStack] that owns it is identified with it. *)
Record ClientSession : Type := { peer : string; url : string }.
Definition AsyncExitStack : Type := ClientSession.

(** The result of [session.call_tool]; the source only reads
    [str(result.content)]. *)
Record CallToolResult : Type := { str_content : string }.

(** One entry of [available_tools] (source lines 83-90). *)
Record ToolSpec : Type := {
  fn_name : string;
  fn_description : option string;
  fn_parameters : json
}.

(** A tool call: [tool_call.id], [tool_call.function.name],
    [tool_call.function.arguments]. *)
Record ToolCall : Type := {
  id : string;
  function_name : string;
  function_arguments : string
}.

(** [response.choices[0].message], for a response that has a first choice;
    a [tool_calls] of [None] is the empty list. *)
Record ChatMessage : Type := {
  content : option string;
  tool_calls : list ToolCall
}.

(** The entries of [messages]. *)
Inductive message : Type :=
| UserMessage (text : string)
| AssistantMessage (calls : list ToolCall)
| ToolMessage (tool_call_id : string) (text : string).

Inductive result (A : Type) : Type :=
| Ok (a : A)
| Err (e : exn).
Arguments Ok {A} a.
Arguments Err {A} e.

(** ** The collaborators *)

Record World : Type := {
  (** [exit_stack.enter_async_context(sse_client(url=...))] *)
  open_streams : ClientSession -> result unit;
  (** [exit_stack.enter_async_context(ClientSession( *streams))] *)
  open_session : ClientSession -> result unit;
  initialize : ClientSession -> result unit;
  list_tools : ClientSession -> result (list Tool);
  (** [session.call_tool(tool_name, tool_args)]; the first argument counts
      the tool calls dispatched earlier in the request. *)
  call_tool : nat -> ClientSession -> string -> json -> result CallToolResult;
  (** [exit_stack.aclose()] *)
  aclose : AsyncExitStack -> result unit;
  (** [client.chat.completions.create(model, messages, tools)].  The
      transcript grows between two calls of one request, so a function of
      the transcript also covers a backend with state. *)
  chat_completions_create : list message -> list ToolSpec -> result ChatMessage;
  json_loads : string -> result json;
  json_dumps : json -> string;
  (** [deadline_expires timeout k]: the [timeout] seconds of
      [asyncio.wait_for] run out while the coroutine is suspended in its
      [k]-th [await]. *)
  deadline_expires : N -> nat -> bool
}.

(** ** Effects *)

Inductive event : Type :=
| EvConnect (session : ClientSession)
| EvListTools (session : ClientSession)
| EvChat (messages : list message) (tools : list ToolSpec)
| EvCallTool (session : ClientSession) (tool_name : string) (tool_args : json)
| EvMessages (messages : list message)   (* [messages] after an append *)
| EvDeadline                             (* [wait_for] cancels its coroutine *)
| EvClose (exit_stack : AsyncExitStack)
| EvLogError (msg : string).

(** How a computation ends.  [Cancelled] is the [CancelledError] injected at
    an [await]; [Pending] is a loop that has not finished when the fuel of
    the embedding ran out. *)
Inductive outcome (A : Type) : Type :=
| Return (a : A)
| Raise (e : exn)
| Cancelled
| Pending.
Arguments Return {A} a.
Arguments Raise {A} e.
Arguments Cancelled {A}.
Arguments Pending {A}.

Record MCPClient : Type := {
  config : MCPConfig;
  sessions : dict ClientSession;
  settion_tools : dict (list Tool);
  exit_stacks : dict AsyncExitStack
}.

(** [MCPClient.__init__] *)
Definition MCPClient_init (cfg : MCPConfig) : MCPClient :=
  {| config := cfg; sessions := []; settion_tools := []; exit_stacks := [] |}.

(** A method of [MCPClient]: reads and updates [self], performs effects,
    and ends in an [outcome]. *)
Definition M (A : Type) : Type := MCPClient -> outcome A * MCPClient * list event.

Definition ret {A} (a : A) : M A := fun self => (Return a, self, []).

Definition raise {A} (e : exn) : M A := fun self => (Raise e, self, []).

Definition bind {A B} (m : M A) (f : A -> M B) : M B :=
  fun self =>
    match m self with
    | (Return a, self1, t1) =>
        let '(r, self2, t2) := f a self1 in (r, self2, t1 ++ t2)
    | (Raise e, self1, t1) => (Raise e, self1, t1)
    | (Cancelled, self1, t1) => (Cancelled, self1, t1)
    | (Pending, self1, t1) => (Pending, self1, t1)
    end.

Notation "x <- m ;; k" := (bind m (fun x => k))
  (at level 61, m at next level, right associativity).
Notation "m ;; k" := (bind m (fun _ => k))
  (at level 61, right associativity).
Notation "' pat <- m ;; k" :=
  (bind m (fun x => match x with pat => k end))
  (at level 61, pat pattern, m at next level, right associativity).

Definition emit (ev : event) : M unit := fun self => (Return tt, self, [ev]).

Definition get_self : M MCPClient := fun self => (Return self, self, []).

Definition put_self (self' : MCPClient) : M unit :=
  fun _ => (Return tt, self', []).

Definition lift {A} (r : result A) : M A :=
  match r with
  | Ok a => ret a
  | Err e => raise e
  end.

(** [d[k]], raising [KeyError]. *)
Definition subscript {V} (d : dict V) (k : string) : M V :=
  match get d k with
  | Some v => ret v
  | None => raise (KeyError k)
  end.

(** [l[i]] for [i >= 0], raising [IndexError]. *)
Definition index {V} (l : list V) (i : N) : M V :=
  match nth_error l (N.to_nat i) with
  | Some v => ret v
  | None => raise IndexError
  end.

(** [try: body  except Exception as e: handler e] *)
Definition try_except {A} (body : M A) (handler : exn -> M A) : M A :=
  fun self =>
    match body self with
    | (Raise e, self1, t1) =>
        let '(r, self2, t2) := handler e self1 in (r, self2, t1 ++ t2)
    | other => other
    end.

(** [try: body  except asyncio.TimeoutError: handler] *)
Definition except_timeout {A} (body : M A) (handler : M A) : M A :=
  fun self =>
    match body self with
    | (Raise (TimeoutError _), self1, t1) =>
        let '(r, self2, t2) := handler self1 in (r, self2, t1 ++ t2)
    | other => other
    end.

(** [try: body  finally: final].  The [finally] block runs however the body
    ends; what it raises replaces the outcome of the body.  A body that
    never ends never reaches it. *)
Definition try_finally {A} (body : M A) (final : M unit) : M A :=
  fun self =>
    match body self with
    | (Pending, self1, t1) => (Pending, self1, t1)
    | (r, self1, t1) =>
        match final self1 with
        | (Return _, self2, t2) => (r, self2, t1 ++ t2)
        | (Raise e, self2, t2) => (Raise e, self2, t1 ++ t2)
        | (Cancelled, self2, t2) => (Cancelled, self2, t1 ++ t2)
        | (Pending, self2, t2) => (Pending, self2, t1 ++ t2)
        end
    end.

(** [for x in l: st = f st x], threading the variables the body updates. *)
Fixpoint for_each {A St} (f : St -> A -> M St) (st : St) (l : list A) : M St :=
  match l with
  | [] => ret st
  | x :: l' => st' <- f st x ;; for_each f st' l'
  end.

(** [logger.error(msg)] *)
Definition logger_error (msg : string) : M unit := emit (EvLogError msg).

(** ** The session registry *)

Section Bridge.

Variable W : World.

Definition set_session (server_name : string) (session : ClientSession) : M unit :=
  self <- get_self ;;
  put_self {| config := config self;
              sessions := set (sessions self) server_name session;
              settion_tools := settion_tools self;
              exit_stacks := exit_stacks self |}.

Definition set_exit_stack (server_name : string) (exit_stack : AsyncExitStack) : M unit :=
  self <- get_self ;;
  put_self {| config := config self;
              sessions := sessions self;
              settion_tools := settion_tools self;
              exit_stacks := set (exit_stacks self) server_name exit_stack |}.

Definition set_tools (server_name : string) (tools : list Tool) : M unit :=
  self <- get_self ;;
  put_self {| config := config self;
              sessions := sessions self;
              settion_tools := set (settion_tools self) server_name tools;
              exit_stacks := exit_stacks self |}.

(** The [try] block of [connect_to_sse_servers] (source lines 46-59). *)
Definition connect_attempt (server_name : string) (server_config : dict string) : M unit :=
  url_ <- subscript server_config "url" ;;
  let session := {| peer := server_name; url := url_ |} in
  emit (EvConnect session) ;;
  lift (open_streams W session) ;;
  lift (open_session W session) ;;
  lift (initialize W session) ;;
  set_session server_name session ;;
  set_exit_stack server_name session ;;
  emit (EvListTools session) ;;
  tools <- lift (list_tools W session) ;;
  set_tools server_name tools.

(** The body of the [for] loop of [connect_to_sse_servers]
    (source lines 44-63). *)
Definition connect_server (server_name : string) (server_config : dict string) : M unit :=
  type_ <- subscript server_config "type" ;;
  if String.eqb type_ "sse" then
    try_except (connect_attempt server_name server_config)
      (fun e =>
         logger_error ("Failed to connect to " ++ server_name ++ ": " ++ str_exn e))
  else ret tt.

(** [MCPClient.connect_to_sse_servers] (source lines 41-63). *)
Definition connect_to_sse_servers : M unit :=
  self <- get_self ;;
  for_each (fun _ '(server_name, server_config) =>
              connect_server server_name server_config)
           tt (mcpServers (config self)).

(** The body of the [for] loop of [cleanup] (source lines 67-70). *)
Definition close_stack (server_name : string) (exit_stack : AsyncExitStack) : M unit :=
  try_except
    (emit (EvClose exit_stack) ;; lift (aclose W exit_stack))
    (fun e =>
       logger_error ("Cleanup error for " ++ server_name ++ ": " ++ str_exn e)).

(** [MCPClient.cleanup] (source lines 65-72). *)
Definition cleanup : M unit :=
  self <- get_self ;;
  for_each (fun _ '(server_name, exit_stack) => close_stack server_name exit_stack)
           tt (exit_stacks self) ;;
  self <- get_self ;;
  put_self {| config := config self;
              sessions := [];
              settion_tools := [];
              exit_stacks := exit_stacks self |}.

(** ** The conversation loop *)

(** [enumerate(d.items())], counting from [i]. *)
Fixpoint enumerate_from {V} (i : N) (l : list V) : list (N * V) :=
  match l with
  | [] => []
  | x :: l' => (i, x) :: enumerate_from (N.succ i) l'
  end.

Definition tool_spec (server_idx : N) (tool : Tool) : ToolSpec :=
  {| fn_name := mangle server_idx (name tool);
     fn_description := description tool;
     fn_parameters := inputSchema tool |}.

(** [available_tools] as built on source lines 80-90. *)
Definition build_catalog (tools_by_server : dict (list Tool)) : list ToolSpec :=
  flat_map (fun '(server_idx, (_, tools)) => map (tool_spec server_idx) tools)
           (enumerate_from 0 tools_by_server).

(** Source lines 132-141: from the name the model echoes back to the
    provider key and the local tool name. *)
Definition resolve (tools_by_server : dict (list Tool)) (flat : string)
  : M (string * string) :=
  match re_match flat with
  | None => raise (HTTPException 400 ("Invalid tool call format: " ++ flat))
  | Some (server_index, tool_name) =>
      let keylist := keys tools_by_server in
      server_name <- index keylist (int_of_digits 0 server_index) ;;
      ret (server_name, tool_name)
  end.

(** [await coro] under a cancellation request [cancel]: the operation is
    started; the coroutine gets its result unless it is cancelled while
    suspended in this, its [k]-th, await. *)
Definition await {A} (cancel : nat -> bool) (k : nat) (started : event)
           (r : result A) : M A :=
  emit started ;;
  if cancel k then (fun self => (Cancelled, self, [])) else lift r.

(** The body of [for tool_call in message.tool_calls] (source lines
    128-168).  The loop state is the number of tool calls dispatched so
    far and [messages]. *)
Definition handle_tool_call (cancel : nat -> bool)
           (st : nat * list message) (tool_call : ToolCall)
  : M (nat * list message) :=
  let '(k, messages) := st in
  tool_args <- lift (json_loads W (function_arguments tool_call)) ;;
  self <- get_self ;;
  '(server_name, tool_name) <- resolve (settion_tools self) (function_name tool_call) ;;
  session <- subscript (sessions self) server_name ;;
  result_ <- await cancel k (EvCallTool session tool_name tool_args)
               (call_tool W k session tool_name tool_args) ;;
  let messages1 :=
    messages ++ [AssistantMessage
                   [{| id := id tool_call;
                       function_name := tool_name;
                       function_arguments := json_dumps W tool_args |}]] in
  emit (EvMessages messages1) ;;
  let messages2 :=
    messages1 ++ [ToolMessage (id tool_call) (str_content result_)] in
  emit (EvMessages messages2) ;;
  ret (S k, messages2).

(** [client.chat.completions.create(model=model, messages=messages,
    tools=available_tools)]: a blocking call, not an [await]. *)
Definition chat (messages : list message) (available_tools : list ToolSpec)
  : M ChatMessage :=
  emit (EvChat messages available_tools) ;;
  lift (chat_completions_create W messages available_tools).

(** [if message.content: final_text.append(message.content)] *)
Definition append_content (final_text : list string) (message_ : ChatMessage)
  : list string :=
  match content message_ with
  | Some text => if String.eqb text "" then final_text else final_text ++ [text]
  | None => final_text
  end.

(** [while message and message.tool_calls: ...] then
    [return "".join(final_text)] (source lines 125-182). *)
Fixpoint while_tool_calls (fuel : nat) (cancel : nat -> bool)
         (available_tools : list ToolSpec)
         (st : nat * list message) (final_text : list string)
         (message_ : ChatMessage) : M string :=
  match tool_calls message_ with
  | [] => ret (String.concat "" final_text)
  | _ :: _ =>
      match fuel with
      | 0 => fun self => (Pending, self, [])
      | S fuel' =>
          st' <- for_each (handle_tool_call cancel) st (tool_calls message_) ;;
          response <- chat (snd st') available_tools ;;
          while_tool_calls fuel' cancel available_tools st'
            (append_content final_text response) response
      end
  end.

(** [MCPClient.process_query] (source lines 74-182), run as a coroutine
    that may be cancelled at its awaits.  The settings read from [config]
    and the construction of the OpenAI client (lines 93-101) are taken to
    succeed; [tool_results], which is written and never read, is left
    out. *)
Definition process_query (fuel : nat) (cancel : nat -> bool) (query_ : string)
  : M string :=
  self <- get_self ;;
  if is_empty (sessions self) then
    raise (HTTPException 400 "No active MCP connections")
  else
    let messages := [UserMessage query_] in
    let available_tools := build_catalog (settion_tools self) in
    response <-
      try_except (chat messages available_tools)
        (fun e =>
           logger_error ("OpenAI API调用失败: " ++ str_exn e) ;;
           raise (HTTPException 500 ("OpenAI API调用失败: " ++ str_exn e))) ;;
    while_tool_calls fuel cancel available_tools (0, messages) [] response.

(** ** The request handler *)

(** [asyncio.wait_for(coro, timeout)]: when the deadline expires the
    coroutine is cancelled and [TimeoutError] is raised in the caller. *)
Definition wait_for {A} (coro : (nat -> bool) -> M A) (timeout : N) : M A :=
  fun self =>
    match coro (deadline_expires W timeout) self with
    | (Cancelled, self1, t1) =>
        (Raise (TimeoutError ""), self1, t1 ++ [EvDeadline])
    | other => other
    end.

(** The [try] block of [handle_query] (source lines 188-196). *)
Definition request_body (fuel : nat) (user_query : UserQuery) : M string :=
  connect_to_sse_servers ;;
  except_timeout
    (wait_for (fun cancel => process_query fuel cancel (query user_query)) 300)
    (raise (HTTPException 504 "Request timeout")).

(** [try ... except Exception as e ...] of [handle_query]
    (source lines 187-199). *)
Definition guarded_body (fuel : nat) (user_query : UserQuery) : M string :=
  try_except (request_body fuel user_query)
    (fun e =>
       logger_error ("Error processing query: " ++ str_exn e) ;;
       raise (HTTPException 500 (str_exn e))).

(** [handle_query] (source lines 185-201).  [Return s] stands for the
    reply [{"response": s}], [Raise e] for the exception handed to the
    framework. *)
Definition handle_query (fuel : nat) (user_query : UserQuery)
  : outcome string * MCPClient * list event :=
  let client := MCPClient_init (mcp_config user_query) in
  try_finally (guarded_body fuel user_query) cleanup client.

End Bridge.

(** ** Observations on a trace *)

Definition closes_of (tr : list event) : list AsyncExitStack :=
  flat_map (fun ev => match ev with EvClose s => [s] | _ => [] end) tr.

Definition chats_of (tr : list event) : list (list message * list ToolSpec) :=
  flat_map (fun ev => match ev with EvChat m t => [(m, t)] | _ => [] end) tr.

Definition dispatched_of (tr : list event) : list (ClientSession * string * json) :=
  flat_map (fun ev => match ev with
                      | EvCallTool s n a => [(s, n, a)]
                      | _ => []
                      end) tr.

(** The successive values of [messages] a trace records: at each append and
    at each call of the model. *)
Definition snapshots (tr : list event) : list (list message) :=
  flat_map (fun ev => match ev with
                      | EvMessages m => [m]
                      | EvChat m _ => [m]
                      | _ => []
                      end) tr.

Definition errors_logged (tr : list event) : list string :=
  flat_map (fun ev => match ev with EvLogError msg => [msg] | _ => [] end) tr.

(** The kinds of events each part of the request performs. *)
Definition registry_event (ev : event) : bool :=
  match ev with
  | EvConnect _ | EvListTools _ | EvLogError _ => true
  | _ => false
  end.

Definition loop_event (ev : event) : bool :=
  match ev with
  | EvChat _ _ | EvCallTool _ _ _ | EvMessages _ | EvLogError _ => true
  | _ => false
  end.

Definition not_close (ev : event) : bool :=
  match ev with
  | EvClose _ => false
  | _ => true
  end.

(** [m] only performs events that satisfy [P]. *)
Definition emits {A} (P : event -> bool) (m : M A) : Prop :=
  forall self, Forall (fun ev => P ev = true) (snd (m self)).

(** [m] leaves [self] as it found it. *)
Definition reads_only {A} (m : M A) : Prop :=
  forall self, snd (fst (m self)) = self.

(** What [cleanup] leaves of the client. *)
Definition cleared (self : MCPClient) : MCPClient :=
  {| config := config self;
     sessions := [];
     settion_tools := [];
     exit_stacks := exit_stacks self |}.

(** What closing one registered exit stack performs. *)
Definition close_script (W : World) (entry : string * AsyncExitStack) : list event :=
  let '(server_name, exit_stack) := entry in
  EvClose exit_stack ::
  match aclose W exit_stack with
  | Ok _ => []
  | Err e => [EvLogError ("Cleanup error for " ++ server_name ++ ": " ++ str_exn e)]
  end.

(** Every tool entry of a transcript comes right after an assistant entry
    that holds a call with the same id. *)
Fixpoint well_paired (prev : option message) (l : list message) : bool :=
  match l with
  | [] => true
  | m :: l' =>
      match m with
      | ToolMessage i _ =>
          match prev with
          | Some (AssistantMessage calls) =>
              existsb (fun c => String.eqb (id c) i) calls
          | _ => false
          end
      | _ => true
      end && well_paired (Some m) l'
  end.

(** Each value of [snaps] extends the one before it, starting from [cur]:
    nothing is removed or reordered. *)
Fixpoint grows_from (cur : list message) (snaps : list (list message)) : Prop :=
  match snaps with
  | [] => True
  | m :: rest => (exists added, m = cur ++ added) /\ grows_from m rest
  end.

(** [m] preserves the property [I] of the client. *)
Definition keeps {A} (I : MCPClient -> Prop) (m : M A) : Prop :=
  forall self, I self -> I (snd (fst (m self))).

(** The client after lines 51-52, and after line 59. *)
Definition registered (self : MCPClient) (session : ClientSession) : MCPClient :=
  {| config := config self;
     sessions := set (sessions self) (peer session) session;
     settion_tools := settion_tools self;
     exit_stacks := set (exit_stacks self) (peer session) session |}.

Definition listed (self : MCPClient) (server_name : string) (tools : list Tool)
  : MCPClient :=
  {| config := config self;
     sessions := sessions self;
     settion_tools := set (settion_tools self) server_name tools;
     exit_stacks := exit_stacks self |}.

(** The registry keeps one exit stack per session, under the same key, and
    a session under the name of its provider. *)
Definition registry_ok (self : MCPClient) : Prop :=
  exit_stacks self = sessions self /\
  NoDup (keys (sessions self)) /\
  Forall (fun entry => peer (snd entry) = fst entry) (sessions self).

(** The responses of the model, in the order of its calls. *)
Definition responses_of (W : World) (tr : list event) : list (result ChatMessage) :=
  map (fun c => chat_completions_create W (fst c) (snd c)) (chats_of tr).

(** ** The happy path of one tool call *)

Definition exn_of {A} (r : outcome A) : option exn :=
  match r with
  | Raise e => Some e
  | _ => None
  end.

(** What a tool call that goes through yields: the session it is routed
    to, the local tool name, the decoded arguments and the tool result.
    [None] when decoding, routing or the call itself fails, or when the
    coroutine is cancelled during the call. *)
Definition dispatch (W : World) (self : MCPClient) (cancel : nat -> bool)
           (k : nat) (tool_call : ToolCall)
  : option (ClientSession * string * json * CallToolResult) :=
  match json_loads W (function_arguments tool_call),
        parse_flat (function_name tool_call) with
  | Ok tool_args, Some (server_idx, tool_name) =>
      match nth_error (keys (settion_tools self)) (N.to_nat server_idx) with
      | Some server_name =>
          match get (sessions self) server_name with
          | Some session =>
              if cancel k then None
              else match call_tool W k session tool_name tool_args with
                   | Ok result_ => Some (session, tool_name, tool_args, result_)
                   | Err _ => None
                   end
          | None => None
          end
      | None => None
      end
  | _, _ => None
  end.

(** The two transcript entries of a tool call that went through. *)
Definition assistant_entry (W : World) (tool_call : ToolCall)
           (out : ClientSession * string * json * CallToolResult) : message :=
  let '(_, tool_name, tool_args, _) := out in
  AssistantMessage [{| id := id tool_call;
                       function_name := tool_name;
                       function_arguments := json_dumps W tool_args |}].

Definition tool_entry (tool_call : ToolCall)
           (out : ClientSession * string * json * CallToolResult) : message :=
  let '(_, _, _, result_) := out in
  ToolMessage (id tool_call) (str_content result_).

Definition dispatch_event (out : ClientSession * string * json * CallToolResult)
  : event :=
  let '(session, tool_name, tool_args, _) := out in
  EvCallTool session tool_name tool_args.

(** Every call of the batch goes through, the [k]-th dispatched call of the
    request first. *)
Fixpoint batch_goes_through (W : World) (self : MCPClient) (cancel : nat -> bool)
         (k : nat) (calls : list ToolCall)
         (outs : list (ClientSession * string * json * CallToolResult)) : Prop :=
  match calls, outs with
  | [], [] => True
  | tool_call :: calls', out :: outs' =>
      dispatch W self cancel k tool_call = Some out /\
      batch_goes_through W self cancel (S k) calls' outs'
  | _, _ => False
  end.

(** What the specification prescribes for a batch (section 4.4,
    ExecutingTools): call by call, in the order of the response, dispatch
    then append the entries of the call, before the next call. *)
Fixpoint batch_script (W : World) (messages : list message)
         (batch : list (ToolCall * (ClientSession * string * json * CallToolResult)))
  : list event :=
  match batch with
  | [] => []
  | (tool_call, out) :: batch' =>
      let messages1 := messages ++ [assistant_entry W tool_call out] in
      let messages2 := messages1 ++ [tool_entry tool_call out] in
      dispatch_event out :: EvMessages messages1 :: EvMessages messages2
        :: batch_script W messages2 batch'
  end.

Fixpoint batch_transcript (W : World) (messages : list message)
         (batch : list (ToolCall * (ClientSession * string * json * CallToolResult)))
  : list message :=
  match batch with
  | [] => messages
  | (tool_call, out) :: batch' =>
      batch_transcript W
        ((messages ++ [assistant_entry W tool_call out]) ++ [tool_entry tool_call out])
        batch'
  end.

(** In a trace that starts with [k] tool calls already dispatched, a
    dispatched call that raises is the last event, and what it raises is how
    the run ends ([x]). *)
Definition failures_end (W : World) (cancel : nat -> bool) (k : nat)
           (x : option exn) (tr : list event) : Prop :=
  forall pre session tool_name tool_args post e,
    tr = pre ++ EvCallTool session tool_name tool_args :: post ->
    cancel (k + length (dispatched_of pre)) = false ->
    call_tool W (k + length (dispatched_of pre)) session tool_name tool_args = Err e ->
    x = Some e /\ post = [].

(** The values of [messages] a run that starts from [messages] records are
    sound transcripts, each an extension of the one before. *)
Definition history_ok (messages : list message) (tr : list event) : Prop :=
  Forall (fun m => well_paired None m = true) (snapshots tr) /\
  grows_from messages (snapshots tr).

(** ** The connect phase, as the specification words it *)

(** The elements of [l] that [f] keeps, in order. *)
Definition pick {A B} (f : A -> option B) (l : list A) : list B :=
  flat_map (fun x => match f x with Some y => [y] | None => [] end) l.

(** The configuration entry declares a ["type"]. *)
Definition typed (entry : string * dict string) : Prop :=
  get (snd entry) "type" <> None.

Definition is_sse (entry : string * dict string) : bool :=
  match get (snd entry) "type" with
  | Some type_ => String.eqb type_ "sse"
  | None => false
  end.

(** The session a connection is attempted for: the entry is of type
    ["sse"] and gives a ["url"]. *)
Definition endpoint (entry : string * dict string) : option ClientSession :=
  if is_sse entry then
    match get (snd entry) "url" with
    | Some u => Some {| peer := fst entry; url := u |}
    | None => None
    end
  else None.

(** The connect attempt succeeds: streams, session and handshake. *)
Definition connects (W : World) (session : ClientSession) : bool :=
  match open_streams W session, open_session W session, initialize W session with
  | Ok _, Ok _, Ok _ => true
  | _, _, _ => false
  end.

Definition connected_session (W : World) (entry : string * dict string)
  : option (string * ClientSession) :=
  match endpoint entry with
  | Some session => if connects W session then Some (fst entry, session) else None
  | None => None
  end.

(** The connect attempt and the capability-list fetch both succeed. *)
Definition fetched_tools (W : World) (entry : string * dict string)
  : option (string * list Tool) :=
  match endpoint entry with
  | Some session =>
      if connects W session then
        match list_tools W session with
        | Ok tools => Some (fst entry, tools)
        | Err _ => None
        end
      else None
  | None => None
  end.

Definition attempts_of (tr : list event) : list ClientSession :=
  flat_map (fun ev => match ev with EvConnect s => [s] | _ => [] end) tr.

(** The client after the providers [done] were gone through. *)
Definition grown (W : World) (self : MCPClient) (done : dict (dict string))
  : MCPClient :=
  {| config := config self;
     sessions := sessions self ++ pick (connected_session W) done;
     settion_tools := settion_tools self ++ pick (fetched_tools W) done;
     exit_stacks := exit_stacks self ++ pick (connected_session W) done |}.

(** No key of [providers] is in use in the registry yet. *)
Definition fresh_for (self : MCPClient) (providers : dict (dict string)) : Prop :=
  forall k, In k (keys providers) ->
            ~ In k (keys (sessions self)) /\
            ~ In k (keys (settion_tools self)) /\
            ~ In k (keys (exit_stacks self)).

(** ** Scenarios

    Concrete collaborators for the end-to-end scenarios of the
    specification (section 8) and their variations. *)

Definition sse (u : string) : dict string := [("type", "sse"); ("url", u)].

Definition search : Tool :=
  {| name := "search"; description := Some "search the web"; inputSchema := JObject [] |}.

Definition call_search (flat : string) : ToolCall :=
  {| id := "call_1"; function_name := flat; function_arguments := "{}" |}.

(** A backend that first asks for one tool call, then answers. *)
Definition ask_then_answer (flat : string) (messages : list message)
  : result ChatMessage :=
  match messages with
  | [_] => Ok {| content := None; tool_calls := [call_search flat] |}
  | _ => Ok {| content := Some "Found 3 results."; tool_calls := [] |}
  end.

(** A backend that answers at once. *)
Definition answer_at_once (text : string) (messages : list message)
  : result ChatMessage :=
  Ok {| content := Some text; tool_calls := [] |}.

Definition world_of
  (lists : ClientSession -> result (list Tool))
  (calls : nat -> ClientSession -> string -> json -> result CallToolResult)
  (closes : AsyncExitStack -> result unit)
  (backend : list message -> result ChatMessage)
  (deadline : N -> nat -> bool) : World :=
  {| open_streams := fun _ => Ok tt;
     open_session := fun _ => Ok tt;
     initialize := fun _ => Ok tt;
     list_tools := lists;
     call_tool := calls;
     aclose := closes;
     chat_completions_create := fun messages _ => backend messages;
     json_loads := fun _ => Ok (JObject []);
     json_dumps := fun _ => "{}";
     deadline_expires := deadline |}.

Definition three_results : nat -> ClientSession -> string -> json -> result CallToolResult :=
  fun _ _ _ _ => Ok {| str_content := "3 results" |}.

(** Scenario A: one provider exposing [search], one tool call, one answer. *)
Definition scenario_A : World :=
  world_of (fun _ => Ok [search]) three_results (fun _ => Ok tt)
           (ask_then_answer "server_0_search") (fun _ _ => false).

Definition one_provider (q : string) : UserQuery :=
  {| query := q; mcp_config := {| mcpServers := [("a", sse "http://a")] |} |}.

Definition two_providers (q : string) : UserQuery :=
  {| query := q;
     mcp_config := {| mcpServers := [("a", sse "http://a"); ("b", sse "http://b")] |} |}.

(** Scenario B: no provider at all. *)
Definition no_provider (q : string) : UserQuery :=
  {| query := q; mcp_config := {| mcpServers := [] |} |}.

(** Scenario C: the model names a provider ordinal that is out of range. *)
Definition scenario_C : World :=
  world_of (fun _ => Ok [search]) three_results (fun _ => Ok tt)
           (ask_then_answer "server_7_search") (fun _ _ => false).

(** The model answers the first request at once, with text ["T"]. *)
Definition direct_answer : World :=
  world_of (fun _ => Ok [search]) three_results (fun _ => Ok tt)
           (answer_at_once "T") (fun _ _ => false).

(** The deadline expires during the first awaited tool call. *)
Definition slow_tool : World :=
  world_of (fun _ => Ok [search]) three_results (fun _ => Ok tt)
           (ask_then_answer "server_0_search") (fun _ k => Nat.eqb k 0).

(** The tool call fails. *)
Definition broken_tool : World :=
  world_of (fun _ => Ok [search]) (fun _ _ _ _ => Err (Error "boom"))
           (fun _ => Ok tt)
           (ask_then_answer "server_0_search") (fun _ _ => false).

(** Provider ["a"] connects but its capability list cannot be fetched;
    closing it fails as well. *)
Definition flaky_a : World :=
  world_of (fun s => if String.eqb (peer s) "a" then Err (Error "no list")
                     else Ok [search])
           three_results
           (fun s => if String.eqb (peer s) "a" then Err (Error "stuck")
                     else Ok tt)
           (ask_then_answer "server_0_search") (fun _ _ => false).

(** A provider entry without a ["type"] key. *)
Definition untyped_provider (q : string) : UserQuery :=
  {| query := q;
     mcp_config := {| mcpServers := [("a", [("url", "http://a")])] |} |}.

(** The session, the catalog and the final client of a request on the one
    provider ["a"] that exposes [search]. *)
Definition provider_a : ClientSession := {| peer := "a"; url := "http://a" |}.

Definition catalog_a : list ToolSpec := [tool_spec 0 search].

Definition closed_a (q : string) : MCPClient :=
  {| config := mcp_config (one_provider q);
     sessions := [];
     settion_tools := [];
     exit_stacks := [("a", provider_a)] |}.

(** A response that asks for two tool calls at once, one per provider. *)
Definition call_with (i flat : string) : ToolCall :=
  {| id := i; function_name := flat; function_arguments := "{}" |}.

Definition both_calls : ChatMessage :=
  {| content := Some "Looking.";
     tool_calls := [call_with "call_1" "server_0_search";
                    call_with "call_2" "server_1_search"] |}.

Definition ask_both (messages : list message) : result ChatMessage :=
  match messages with
  | [_] => Ok both_calls
  | _ => Ok {| content := Some "Found 3 results."; tool_calls := [] |}
  end.

(** Each provider answers with its own name. *)
Definition scenario_batch : World :=
  world_of (fun _ => Ok [search])
           (fun _ session _ _ => Ok {| str_content := peer session |})
           (fun _ => Ok tt) ask_both (fun _ _ => false).

Definition provider_b : ClientSession := {| peer := "b"; url := "http://b" |}.

(** The client once both providers of [two_providers] are connected. *)
Definition connected_ab (q : string) : MCPClient :=
  {| config := mcp_config (two_providers q);
     sessions := [("a", provider_a); ("b", provider_b)];
     settion_tools := [("a", [search]); ("b", [search])];
     exit_stacks := [("a", provider_a); ("b", provider_b)] |}.

(** The two names on which the pattern does not give the pair back. *)
Definition two_lines : string := String "a" (String (ascii_of_nat 10) "b").

(** ** Further notions *)

(** The line feed, the one character that [.] does not match. *)
Definition line_feed : ascii := ascii_of_nat 10.

(** The strings that [re.match(r"server_(\d+)_(.+)", ...)] accepts with
    groups [digits] and [tool_name]: what follows the name, if anything,
    starts with a line feed. *)
Definition accepted_as (flat digits tool_name : string) : Prop :=
  exists rest,
    flat = ("server_" ++ digits ++ "_" ++ tool_name ++ rest)%string /\
    digits <> "" /\
    string_forall is_digit digits = true /\
    plain_name tool_name = true /\
    (rest = "" \/ exists tail, rest = String line_feed tail).

(** Every provider of the tool registry has a session, opened for it. *)
Definition routable (self : MCPClient) : Prop :=
  forall k, In k (keys (settion_tools self)) ->
            exists session, get (sessions self) k = Some session /\ peer session = k.

(** Two clients with the same registry, whatever their configuration. *)
Definition same_registry (self self' : MCPClient) : Prop :=
  sessions self = sessions self' /\
  settion_tools self = settion_tools self' /\
  exit_stacks self = exit_stacks self'.

(** At each call of the model in [tr], the transcript has one entry for
    the query and two for each tool call dispatched before, [k] of them
    before [tr]. *)
Definition chats_counted (k : nat) (tr : list event) : Prop :=
  forall pre messages tools post,
    tr = pre ++ EvChat messages tools :: post ->
    length messages = 1 + 2 * (k + length (dispatched_of pre)).

(** A list of numbers that grows strictly, from above [prev]. *)
Fixpoint increasing (prev : nat) (l : list nat) : Prop :=
  match l with
  | [] => True
  | x :: l' => prev < x /\ increasing x l'
  end.

Definition transcript_lengths (tr : list event) : list nat :=
  map (fun c => length (fst c)) (chats_of tr).

(** The two transcript entries of a call, given the call as it is recorded
    and the text of its result. *)
Definition entry_pair (done : ToolCall * string) : list message :=
  [AssistantMessage [fst done]; ToolMessage (id (fst done)) (snd done)].

Definition recorded (W : World)
           (item : ToolCall * (ClientSession * string * json * CallToolResult))
  : ToolCall * string :=
  let '(tool_call, (_, tool_name, tool_args, result_)) := item in
  ({| id := id tool_call;
      function_name := tool_name;
      function_arguments := json_dumps W tool_args |},
   str_content result_).

(** A transcript the loop hands to the model: the query, then the pairs of
    entries of the calls done so far, each recorded under a local name. *)
Definition query_then_pairs (query_ : string) (messages : list message) : Prop :=
  exists done,
    messages = UserMessage query_ :: flat_map entry_pair done /\
    Forall (fun d => plain_name (function_name (fst d)) = true) done.

(** A backend that is down, and one that fails after the first tool call. *)
Definition backend_down : World :=
  world_of (fun _ => Ok [search]) three_results (fun _ => Ok tt)
           (fun _ => Err (Error "no route")) (fun _ _ => false).

Definition backend_drops : World :=
  world_of (fun _ => Ok [search]) three_results (fun _ => Ok tt)
           (fun messages =>
              match messages with
              | [_] => Ok {| content := None;
                             tool_calls := [call_search "server_0_search"] |}
              | _ => Err (Error "no route")
              end)
           (fun _ _ => false).

(** The client once the provider of [one_provider] is connected. *)
Definition connected_a (q : string) : MCPClient :=
  {| config := mcp_config (one_provider q);
     sessions := [("a", provider_a)];
     settion_tools := [("a", [search])];
     exit_stacks := [("a", provider_a)] |}.

(** A request whose only provider is not of type ["sse"]. *)
Definition stdio_only (q : string) : UserQuery :=
  {| query := q;
     mcp_config := {| mcpServers := [("a", [("type", "stdio"); ("command", "run")])] |} |}.

(** ** Facts on the flat namespace *)

Section SpanFacts.

Variable p : ascii -> bool.

Lemma span_app_stop s c r :
  string_forall p s = true -> p c = false ->
  span p (s ++ String c r)%string = (s, String c r).
Proof.
  intros Hs Hc. induction s as [|a s IH]; simpl in *.
  - now rewrite Hc.
  - apply andb_true_iff in Hs as [Ha Hs]. rewrite Ha, (IH Hs). reflexivity.
Qed.

Lemma span_all s : string_forall p s = true -> span p s = (s, "").
Proof.
  induction s as [|a s IH]; simpl; intros Hs; [reflexivity|].
  apply andb_true_iff in Hs as [Ha Hs]. now rewrite Ha, (IH Hs).
Qed.

End SpanFacts.

Lemma int_of_digits_revapp d d' :
  int_of_digits (DecimalPos.Unsigned.of_lu d') (NilEmpty.string_of_uint d)
  = DecimalPos.Unsigned.of_lu (Decimal.revapp d d').
Proof.
  revert d'.
  induction d; intros d';
    cbn [NilEmpty.string_of_uint int_of_digits Decimal.revapp];
    [reflexivity|..];
    rewrite <- IHd; f_equal; cbn [DecimalPos.Unsigned.of_lu];
    generalize (DecimalPos.Unsigned.of_lu d'); intros x;
    unfold digit_value;
    match goal with
    | |- context [N_of_ascii ?c] =>
        let v := eval vm_compute in (N_of_ascii c) in
        change (N_of_ascii c) with v
    end; lia.
Qed.

Lemma int_of_str_int n : int_of_digits 0 (str_int n) = n.
Proof.
  unfold str_int.
  change 0%N with (DecimalPos.Unsigned.of_lu Decimal.Nil).
  rewrite int_of_digits_revapp.
  change (Decimal.revapp (N.to_uint n) Decimal.Nil) with (Decimal.rev (N.to_uint n)).
  rewrite <- DecimalPos.Unsigned.of_uint_alt.
  apply DecimalN.Unsigned.of_to.
Qed.

Lemma string_of_uint_digits d :
  string_forall is_digit (NilEmpty.string_of_uint d) = true.
Proof. induction d; simpl; auto. Qed.

Lemma str_int_digits n : string_forall is_digit (str_int n) = true.
Proof. apply string_of_uint_digits. Qed.

Lemma str_int_nonempty n : exists c r, str_int n = String c r.
Proof.
  unfold str_int. destruct n as [|q]; simpl.
  - eexists _, _; reflexivity.
  - pose proof (DecimalPos.Unsigned.to_uint_nonnil q) as Hq.
    destruct (Pos.to_uint q); simpl; try (eexists _, _; reflexivity).
    now elim Hq.
Qed.

Lemma strip_prefix_app pre s : strip_prefix pre (pre ++ s)%string = Some s.
Proof.
  induction pre as [|a pre IH]; simpl; [reflexivity|].
  now rewrite Ascii.eqb_refl.
Qed.

Lemma re_match_mangle server_idx tool_name :
  plain_name tool_name = true ->
  re_match (mangle server_idx tool_name) = Some (str_int server_idx, tool_name).
Proof.
  intros Hn. unfold plain_name in Hn. apply andb_true_iff in Hn as [Hne Hnl].
  unfold re_match, mangle. rewrite strip_prefix_app.
  change ("_" ++ tool_name)%string with (String "_"%char tool_name).
  rewrite (span_app_stop is_digit _ "_"%char tool_name (str_int_digits _) eq_refl).
  destruct (str_int_nonempty server_idx) as (c & r & ->).
  rewrite Ascii.eqb_refl, (span_all not_newline _ Hnl).
  destruct tool_name; [discriminate|reflexivity].
Qed.

Lemma append_inv_tail (a b t : string) : (a ++ t = b ++ t)%string -> a = b.
Proof.
  intros H.
  assert (L : forall x y : string,
             String.length (x ++ y)%string = String.length x + String.length y).
  { induction x; simpl; intros; [reflexivity|now rewrite IHx]. }
  assert (Hlen : String.length a = String.length b).
  { apply (f_equal String.length) in H. rewrite !L in H. lia. }
  clear L. revert b H Hlen.
  induction a as [|x a IH]; destruct b as [|y b]; simpl; intros H Hlen;
    try discriminate; [reflexivity|].
  injection H as -> H. f_equal. apply IH; [assumption|lia].
Qed.

Lemma str_int_inj i j : str_int i = str_int j -> i = j.
Proof.
  unfold str_int. intros H.
  apply DecimalN.Unsigned.to_uint_inj.
  pose proof (NilEmpty.usu (N.to_uint i)) as Hi.
  pose proof (NilEmpty.usu (N.to_uint j)) as Hj.
  rewrite H in Hi. congruence.
Qed.

Lemma mangle_inj_index i j tool_name :
  mangle i tool_name = mangle j tool_name -> i = j.
Proof.
  unfold mangle. intros H.
  apply str_int_inj.
  simpl in H.
  repeat match type of H with String _ _ = String _ _ => injection H as H end.
  eapply append_inv_tail. exact H.
Qed.

Example parse_flat_search : parse_flat "server_0_search" = Some (0%N, "search").
Proof. reflexivity. Qed.

Example parse_flat_two_digits : parse_flat "server_12_3_x" = Some (12%N, "3_x").
Proof. reflexivity. Qed.

Example parse_flat_bad : parse_flat "search" = None.
Proof. reflexivity. Qed.

Lemma parse_flat_mangle server_idx tool_name :
  plain_name tool_name = true ->
  parse_flat (mangle server_idx tool_name) = Some (server_idx, tool_name).
Proof.
  intros Hn. unfold parse_flat.
  now rewrite (re_match_mangle _ _ Hn), int_of_str_int.
Qed.

Lemma enumerate_from_nth {V} (l : list V) :
  forall start n x,
    nth_error l n = Some x ->
    In ((start + N.of_nat n)%N, x) (enumerate_from start l).
Proof.
  induction l as [|y l IH]; intros start [|n] x H; simpl in *; try discriminate.
  - injection H as ->. left. f_equal. lia.
  - right. replace (start + N.pos (Pos.of_succ_nat n))%N
      with (N.succ start + N.of_nat n)%N by lia.
    now apply IH.
Qed.

Lemma keys_nth {V} (d : dict V) n k v :
  nth_error d n = Some (k, v) -> nth_error (keys d) n = Some k.
Proof.
  intros H. unfold keys. now rewrite nth_error_map, H.
Qed.

(** C1, as stated, fails: the flat identifier of a tool whose local name is
    empty does not match the pattern, and the one of a tool whose name
    holds a line feed decodes to the part of the name before it. *)
Lemma round_trip_fails_without_plain_name :
  parse_flat (mangle 0 "") <> Some (0%N, "") /\
  parse_flat (mangle 0 two_lines) = Some (0%N, "a") /\
  parse_flat (mangle 0 two_lines) <> Some (0%N, two_lines).
Proof.
  repeat split; vm_compute; discriminate.
Qed.

(** C1 (amended): for every provider ordinal and every local tool name that
    is not empty and holds no line feed, decoding the flat identifier built
    from the pair gives the pair back; a different ordinal gives a different
    identifier for the same local name (whatever the name); and when the
    ordinal is the position of a provider in the tool registry, the
    identifier is in the catalog for each of its tools of that name and
    [resolve] maps it to that provider's key and the local name. *)
Theorem flat_identifier_round_trip
  (server_idx : N) (tool_name : string)
  (Hplain : plain_name tool_name = true) :
  parse_flat (mangle server_idx tool_name) = Some (server_idx, tool_name) /\
  (forall other_idx,
      mangle other_idx tool_name = mangle server_idx tool_name ->
      other_idx = server_idx) /\
  (forall (tools_by_server : dict (list Tool)) server_name tools,
      nth_error tools_by_server (N.to_nat server_idx) = Some (server_name, tools) ->
      (forall tool, In tool tools -> name tool = tool_name ->
         In (tool_spec server_idx tool) (build_catalog tools_by_server)) /\
      (forall self,
         resolve tools_by_server (mangle server_idx tool_name) self
         = (Return (server_name, tool_name), self, []))).
Proof.
  split; [now apply parse_flat_mangle|].
  split; [intros j Hj; now apply mangle_inj_index in Hj|].
  intros d server_name tools Hnth. split.
  - intros tool Hin _. unfold build_catalog. apply in_flat_map.
    exists (server_idx, (server_name, tools)). split.
    + pose proof (enumerate_from_nth d 0 _ _ Hnth) as H.
      now rewrite N2Nat.id in H.
    + now apply in_map.
  - intros self. unfold resolve.
    rewrite (re_match_mangle _ _ Hplain), int_of_str_int.
    unfold bind, index. now rewrite (keys_nth _ _ _ _ Hnth).
Qed.

Lemma flat_identifier_round_trip_witness :
  parse_flat (mangle 1 "x") = Some (1%N, "x") /\
  (forall other_idx, mangle other_idx "x" = mangle 1 "x" -> other_idx = 1%N).
Proof.
  pose proof (flat_identifier_round_trip 1 "x" eq_refl) as [H1 [H2 _]].
  split; [exact H1|exact H2].
Defined.

(** ** Reasoning on methods *)

Section Emits.

Variable P : event -> bool.

Lemma emits_ret {A} (a : A) : emits P (ret a).
Proof. intros self. constructor. Qed.

Lemma emits_raise {A} (e : exn) : emits P (@raise A e).
Proof. intros self. constructor. Qed.

Lemma emits_bind {A B} (m : M A) (f : A -> M B) :
  emits P m -> (forall a, emits P (f a)) -> emits P (bind m f).
Proof.
  intros Hm Hf self. unfold bind. specialize (Hm self).
  destruct (m self) as [[[a|e| |] self1] t1]; simpl in *; try assumption.
  specialize (Hf a self1). destruct (f a self1) as [[r self2] t2]; simpl in *.
  apply Forall_app. now split.
Qed.

Lemma emits_emit ev : P ev = true -> emits P (emit ev).
Proof. intros H self. simpl. now repeat constructor. Qed.

Lemma emits_get_self : emits P get_self.
Proof. intros self. constructor. Qed.

Lemma emits_put_self self' : emits P (put_self self').
Proof. intros self. constructor. Qed.

Lemma emits_lift {A} (r : result A) : emits P (lift r).
Proof. destruct r; [apply emits_ret|apply emits_raise]. Qed.

Lemma emits_subscript {V} (d : dict V) k : emits P (subscript d k).
Proof. unfold subscript. destruct (get d k); [apply emits_ret|apply emits_raise]. Qed.

Lemma emits_index {V} (l : list V) i : emits P (index l i).
Proof. unfold index. destruct (nth_error l _); [apply emits_ret|apply emits_raise]. Qed.

Lemma emits_try_except {A} (body : M A) handler :
  emits P body -> (forall e, emits P (handler e)) -> emits P (try_except body handler).
Proof.
  intros Hb Hh self. unfold try_except. specialize (Hb self).
  destruct (body self) as [[[a|e| |] self1] t1]; simpl in *; try assumption.
  specialize (Hh e self1). destruct (handler e self1) as [[r self2] t2]; simpl in *.
  apply Forall_app. now split.
Qed.

Lemma emits_except_timeout {A} (body handler : M A) :
  emits P body -> emits P handler -> emits P (except_timeout body handler).
Proof.
  intros Hb Hh self. unfold except_timeout. specialize (Hb self).
  destruct (body self) as [[[a|e| |] self1] t1]; simpl in *; try assumption.
  destruct e; simpl; try assumption.
  specialize (Hh self1). destruct (handler self1) as [[r self2] t2]; simpl in *.
  apply Forall_app. now split.
Qed.

Lemma emits_for_each {A St} (f : St -> A -> M St) l :
  (forall st x, emits P (f st x)) -> forall st, emits P (for_each f st l).
Proof.
  intros Hf. induction l as [|x l IH]; intros st; simpl.
  - apply emits_ret.
  - apply emits_bind; [apply Hf|intros st'; apply IH].
Qed.

End Emits.

Lemma emits_weaken {A} (P Q : event -> bool) (m : M A) :
  (forall ev, P ev = true -> Q ev = true) -> emits P m -> emits Q m.
Proof.
  intros HPQ Hm self. specialize (Hm self).
  eapply Forall_impl; [|exact Hm]. exact HPQ.
Qed.

Create HintDb emits.
#[local] Hint Resolve emits_ret emits_raise emits_get_self emits_put_self
  emits_lift emits_subscript emits_index : emits.

Ltac emits_step :=
  first
    [ apply emits_bind; [|intros ?]
    | apply emits_try_except; [|intros ?]
    | apply emits_except_timeout
    | apply emits_for_each; intros ? ?
    | apply emits_emit; reflexivity
    | solve [auto with emits]
    | match goal with |- emits _ (match ?x with _ => _ end) => destruct x end
    | match goal with |- emits _ (if ?x then _ else _) => destruct x end ].

Ltac emits_auto := repeat emits_step.

Section BridgeFacts.

Variable W : World.

Lemma connect_emits : emits registry_event (connect_to_sse_servers W).
Proof.
  unfold connect_to_sse_servers, connect_server, connect_attempt,
    set_session, set_exit_stack, set_tools, logger_error.
  emits_auto.
Qed.

Lemma handle_tool_call_emits_only (P : event -> bool) cancel st tool_call :
  (forall session tool_name tool_args,
      P (EvCallTool session tool_name tool_args) = true) ->
  (forall messages, P (EvMessages messages) = true) ->
  emits P (handle_tool_call W cancel st tool_call).
Proof.
  intros Hcall Hmessages.
  unfold handle_tool_call, resolve, await. destruct st as [k messages].
  repeat first
    [ apply emits_emit; solve [apply Hcall|apply Hmessages]
    | emits_step ].
  intros self. constructor.
Qed.

Lemma handle_tool_call_emits cancel st tool_call :
  emits loop_event (handle_tool_call W cancel st tool_call).
Proof. now apply handle_tool_call_emits_only. Qed.

Lemma chat_emits messages tools : emits loop_event (chat W messages tools).
Proof. unfold chat. emits_auto. Qed.

Lemma while_tool_calls_emits fuel cancel tools :
  forall st final_text message_,
    emits loop_event (while_tool_calls W fuel cancel tools st final_text message_).
Proof.
  induction fuel as [|fuel IH]; intros st final_text message_; simpl;
    destruct (tool_calls message_) eqn:E; try apply emits_ret.
  - intros self. constructor.
  - apply emits_bind.
    + apply emits_for_each. intros. apply handle_tool_call_emits.
    + intros st'. apply emits_bind; [apply chat_emits|]. intros. apply IH.
Qed.

Lemma process_query_emits fuel cancel query_ :
  emits loop_event (process_query W fuel cancel query_).
Proof.
  unfold process_query, logger_error.
  apply emits_bind; [apply emits_get_self|]. intros self.
  destruct (is_empty (sessions self)); [apply emits_raise|].
  apply emits_bind.
  - apply emits_try_except; [apply chat_emits|]. intros. emits_auto.
  - intros. apply while_tool_calls_emits.
Qed.

Lemma wait_for_emits {A} (coro : (nat -> bool) -> M A) timeout :
  (forall cancel, emits not_close (coro cancel)) ->
  emits not_close (wait_for W coro timeout).
Proof.
  intros H self. unfold wait_for. specialize (H (deadline_expires W timeout) self).
  destruct (coro _ self) as [[[a|e| |] self1] t1]; simpl in *; try assumption.
  apply Forall_app. split; [assumption|now repeat constructor].
Qed.

Lemma guarded_body_emits fuel user_query :
  emits not_close (guarded_body W fuel user_query).
Proof.
  unfold guarded_body, request_body, logger_error.
  apply emits_try_except; [|intros; emits_auto].
  apply emits_bind.
  - eapply emits_weaken; [|apply connect_emits]. now intros [].
  - intros _. apply emits_except_timeout; [|apply emits_raise].
    apply wait_for_emits. intros cancel.
    eapply emits_weaken; [|apply process_query_emits]. now intros [].
Qed.

Lemma closes_of_app t1 t2 : closes_of (t1 ++ t2) = closes_of t1 ++ closes_of t2.
Proof. apply flat_map_app. Qed.

Lemma closes_of_not_close tr :
  Forall (fun ev => not_close ev = true) tr -> closes_of tr = [].
Proof.
  induction 1 as [|ev tr Hev _ IH]; [reflexivity|].
  destruct ev; simpl in *; try discriminate; exact IH.
Qed.

Lemma close_stack_run server_name exit_stack self :
  close_stack W server_name exit_stack self
  = (Return tt, self, close_script W (server_name, exit_stack)).
Proof.
  unfold close_stack, close_script, try_except, bind, emit, lift, logger_error.
  destruct (aclose W exit_stack) as [[]|e]; reflexivity.
Qed.

Lemma close_loop_run stacks self :
  for_each (fun _ '(server_name, exit_stack) => close_stack W server_name exit_stack)
           tt stacks self
  = (Return tt, self, flat_map (close_script W) stacks).
Proof.
  induction stacks as [|[server_name exit_stack] stacks IH]; [reflexivity|].
  cbn [for_each flat_map]. unfold bind at 1.
  rewrite close_stack_run, IH. reflexivity.
Qed.

(** [cleanup] always returns, whatever the closes do. *)
Lemma cleanup_run self :
  cleanup W self
  = (Return tt, cleared self, flat_map (close_script W) (exit_stacks self)).
Proof.
  unfold cleanup. unfold bind at 1. cbn [get_self].
  unfold bind at 1. rewrite close_loop_run.
  unfold bind, get_self, put_self. cbn. now rewrite List.app_nil_r.
Qed.

Lemma closes_of_close_scripts stacks :
  closes_of (flat_map (close_script W) stacks) = map snd stacks.
Proof.
  induction stacks as [|[server_name exit_stack] stacks IH]; [reflexivity|].
  cbn [flat_map]. rewrite closes_of_app, IH. cbn [close_script].
  destruct (aclose W exit_stack); reflexivity.
Qed.

Lemma handle_query_unfold fuel user_query :
  handle_query W fuel user_query =
  match guarded_body W fuel user_query (MCPClient_init (mcp_config user_query)) with
  | (Pending, self1, t1) => (Pending, self1, t1)
  | (r, self1, t1) =>
      (r, cleared self1, t1 ++ flat_map (close_script W) (exit_stacks self1))
  end.
Proof.
  unfold handle_query, try_finally.
  destruct (guarded_body W fuel user_query _) as [[[a|e| |] self1] t1];
    rewrite ?cleanup_run; reflexivity.
Qed.

End BridgeFacts.

(** ** Methods that only read the client *)

Lemma reads_only_ret {A} (a : A) : reads_only (ret a).
Proof. intros self. reflexivity. Qed.

Lemma reads_only_raise {A} (e : exn) : reads_only (@raise A e).
Proof. intros self. reflexivity. Qed.

Lemma reads_only_bind {A B} (m : M A) (f : A -> M B) :
  reads_only m -> (forall a, reads_only (f a)) -> reads_only (bind m f).
Proof.
  intros Hm Hf self. unfold bind. specialize (Hm self).
  destruct (m self) as [[[a|e| |] self1] t1]; simpl in *; try assumption.
  subst self1. specialize (Hf a self).
  destruct (f a self) as [[r self2] t2]; simpl in *. assumption.
Qed.

Lemma reads_only_emit ev : reads_only (emit ev).
Proof. intros self. reflexivity. Qed.

Lemma reads_only_get_self : reads_only get_self.
Proof. intros self. reflexivity. Qed.

Lemma reads_only_lift {A} (r : result A) : reads_only (lift r).
Proof. destruct r; intros self; reflexivity. Qed.

Lemma reads_only_subscript {V} (d : dict V) k : reads_only (subscript d k).
Proof. unfold subscript. destruct (get d k); intros self; reflexivity. Qed.

Lemma reads_only_index {V} (l : list V) i : reads_only (index l i).
Proof. unfold index. destruct (nth_error l _); intros self; reflexivity. Qed.

Lemma reads_only_try_except {A} (body : M A) handler :
  reads_only body -> (forall e, reads_only (handler e)) ->
  reads_only (try_except body handler).
Proof.
  intros Hb Hh self. unfold try_except. specialize (Hb self).
  destruct (body self) as [[[a|e| |] self1] t1]; simpl in *; try assumption.
  subst self1. specialize (Hh e self).
  destruct (handler e self) as [[r self2] t2]; simpl in *. assumption.
Qed.

Lemma reads_only_for_each {A St} (f : St -> A -> M St) l :
  (forall st x, reads_only (f st x)) -> forall st, reads_only (for_each f st l).
Proof.
  intros Hf. induction l as [|x l IH]; intros st; simpl.
  - apply reads_only_ret.
  - apply reads_only_bind; [apply Hf|intros st'; apply IH].
Qed.

Create HintDb reads.
#[local] Hint Resolve reads_only_ret reads_only_raise reads_only_emit
  reads_only_get_self reads_only_lift reads_only_subscript reads_only_index
  : reads.

Ltac reads_step :=
  first
    [ apply reads_only_bind; [|intros ?]
    | apply reads_only_try_except; [|intros ?]
    | apply reads_only_for_each; intros ? ?
    | solve [auto with reads]
    | match goal with |- reads_only (match ?x with _ => _ end) => destruct x end
    | match goal with |- reads_only (if ?x then _ else _) => destruct x end ].

Ltac reads_auto := repeat reads_step.

Lemma keeps_reads_only {A} I (m : M A) : reads_only m -> keeps I m.
Proof. intros H self HI. now rewrite H. Qed.

Lemma keeps_bind {A B} I (m : M A) (f : A -> M B) :
  keeps I m -> (forall a, keeps I (f a)) -> keeps I (bind m f).
Proof.
  intros Hm Hf self HI. unfold bind. specialize (Hm self HI).
  destruct (m self) as [[[a|e| |] self1] t1]; simpl in *; try assumption.
  specialize (Hf a self1 Hm).
  destruct (f a self1) as [[r self2] t2]; simpl in *. assumption.
Qed.

Lemma keeps_try_except {A} I (body : M A) handler :
  keeps I body -> (forall e, keeps I (handler e)) -> keeps I (try_except body handler).
Proof.
  intros Hb Hh self HI. unfold try_except. specialize (Hb self HI).
  destruct (body self) as [[[a|e| |] self1] t1]; simpl in *; try assumption.
  specialize (Hh e self1 Hb).
  destruct (handler e self1) as [[r self2] t2]; simpl in *. assumption.
Qed.

Lemma keeps_except_timeout {A} I (body handler : M A) :
  keeps I body -> keeps I handler -> keeps I (except_timeout body handler).
Proof.
  intros Hb Hh self HI. unfold except_timeout. specialize (Hb self HI).
  destruct (body self) as [[[a|e| |] self1] t1]; simpl in *; try assumption.
  destruct e; simpl; try assumption.
  specialize (Hh self1 Hb).
  destruct (handler self1) as [[r self2] t2]; simpl in *. assumption.
Qed.

Lemma keeps_for_each {A St} I (f : St -> A -> M St) l :
  (forall st x, keeps I (f st x)) -> forall st, keeps I (for_each f st l).
Proof.
  intros Hf. induction l as [|x l IH]; intros st; simpl.
  - apply keeps_reads_only, reads_only_ret.
  - apply keeps_bind; [apply Hf|intros st'; apply IH].
Qed.

(** ** Dictionaries *)

Lemma set_fresh {V} (d : dict V) k v :
  ~ In k (keys d) -> set d k v = d ++ [(k, v)].
Proof.
  induction d as [|[k' v'] d IH]; simpl; intros Hk; [reflexivity|].
  destruct (String.eqb_spec k' k) as [->|Hne].
  - elim Hk. now left.
  - rewrite IH; [reflexivity|]. intros Hin. apply Hk. now right.
Qed.

Lemma keys_set {V} (d : dict V) k v :
  keys (set d k v) = if in_dec string_dec k (keys d) then keys d else keys d ++ [k].
Proof.
  induction d as [|[k' v'] d IH]; simpl; [reflexivity|].
  destruct (String.eqb_spec k' k) as [->|Hne]; simpl.
  - destruct (string_dec k k); [reflexivity|congruence].
  - rewrite IH. destruct (string_dec k' k); [congruence|].
    destruct (in_dec string_dec k (keys d)); reflexivity.
Qed.

Lemma set_keys_nodup {V} (d : dict V) k v :
  NoDup (keys d) -> NoDup (keys (set d k v)).
Proof.
  intros H. rewrite keys_set.
  destruct (in_dec string_dec k (keys d)) as [Hin|Hnin]; [assumption|].
  apply NoDup_app; [assumption|repeat constructor; intros []|].
  intros x Hx [<-|[]]. contradiction.
Qed.

Lemma set_Forall {V} (Q : string * V -> Prop) (d : dict V) k v :
  Forall Q d -> Q (k, v) -> Forall Q (set d k v).
Proof.
  intros Hd Hkv. induction d as [|[k' v'] d IH]; simpl.
  - now repeat constructor.
  - inversion Hd as [|? ? H1 H2]; subst.
    destruct (String.eqb_spec k' k) as [->|Hne]; constructor; auto.
Qed.

(** ** The registry during a request *)

Section RegistryFacts.

Variable W : World.

(** The [try] block of the connect loop, case by case. *)
Lemma connect_attempt_run server_name server_config self :
  connect_attempt W server_name server_config self =
  match get server_config "url" with
  | None => (Raise (KeyError "url"), self, [])
  | Some u =>
      let session := {| peer := server_name; url := u |} in
      match open_streams W session with
      | Err e => (Raise e, self, [EvConnect session])
      | Ok _ =>
          match open_session W session with
          | Err e => (Raise e, self, [EvConnect session])
          | Ok _ =>
              match initialize W session with
              | Err e => (Raise e, self, [EvConnect session])
              | Ok _ =>
                  match list_tools W session with
                  | Err e =>
                      (Raise e, registered self session,
                       [EvConnect session; EvListTools session])
                  | Ok tools =>
                      (Return tt, listed (registered self session) server_name tools,
                       [EvConnect session; EvListTools session])
                  end
              end
          end
      end
  end.
Proof.
  unfold connect_attempt, subscript.
  destruct (get server_config "url") as [u|]; [|reflexivity].
  cbn zeta.
  unfold bind at 1. cbn [ret].
  unfold bind at 1. cbn [emit].
  unfold bind at 1.
  destruct (open_streams W _) as [[]|e]; [|reflexivity]. cbn [lift ret].
  unfold bind at 1.
  destruct (open_session W _) as [[]|e]; [|reflexivity]. cbn [lift ret].
  unfold bind at 1.
  destruct (initialize W _) as [[]|e]; [|reflexivity]. cbn [lift ret].
  unfold set_session, set_exit_stack, set_tools, bind, get_self, put_self, emit.
  destruct (list_tools W _) as [tools|e]; reflexivity.
Qed.

Lemma registered_ok self session :
  registry_ok self -> registry_ok (registered self session).
Proof.
  intros (Hes & Hnd & Hpeer). unfold registry_ok, registered. cbn.
  rewrite Hes. repeat split.
  - now apply set_keys_nodup.
  - now apply set_Forall.
Qed.

Lemma connect_server_keeps server_name server_config :
  keeps registry_ok (connect_server W server_name server_config).
Proof.
  intros self HI. unfold connect_server, subscript.
  destruct (get server_config "type") as [type_|]; [|exact HI].
  unfold bind at 1. cbn [ret].
  destruct (String.eqb type_ "sse"); [|exact HI].
  unfold try_except. rewrite connect_attempt_run.
  destruct (get server_config "url") as [u|]; [|exact HI].
  cbn zeta.
  destruct (open_streams W _) as [[]|e]; [|exact HI].
  destruct (open_session W _) as [[]|e]; [|exact HI].
  destruct (initialize W _) as [[]|e]; [|exact HI].
  destruct (list_tools W _) as [tools|e]; cbn;
    apply (registered_ok self {| peer := server_name; url := u |} HI).
Qed.

Lemma connect_keeps : keeps registry_ok (connect_to_sse_servers W).
Proof.
  unfold connect_to_sse_servers.
  apply keeps_bind; [apply keeps_reads_only, reads_only_get_self|].
  intros self. apply keeps_for_each. intros [] [server_name server_config].
  apply connect_server_keeps.
Qed.

Lemma handle_tool_call_reads cancel st tool_call :
  reads_only (handle_tool_call W cancel st tool_call).
Proof.
  unfold handle_tool_call, resolve, await. destruct st as [k messages].
  reads_auto; intros self; reflexivity.
Qed.

Lemma chat_reads messages tools : reads_only (chat W messages tools).
Proof. unfold chat. reads_auto. Qed.

Lemma while_tool_calls_reads fuel cancel tools :
  forall st final_text message_,
    reads_only (while_tool_calls W fuel cancel tools st final_text message_).
Proof.
  induction fuel as [|fuel IH]; intros st final_text message_; simpl;
    destruct (tool_calls message_) eqn:E; try apply reads_only_ret.
  - intros self. reflexivity.
  - apply reads_only_bind.
    + apply reads_only_for_each. intros. apply handle_tool_call_reads.
    + intros st'. apply reads_only_bind; [apply chat_reads|]. intros. apply IH.
Qed.

(** [process_query] does not touch the registry. *)
Lemma process_query_reads fuel cancel query_ :
  reads_only (process_query W fuel cancel query_).
Proof.
  unfold process_query, logger_error.
  apply reads_only_bind; [apply reads_only_get_self|]. intros self.
  destruct (is_empty (sessions self)); [apply reads_only_raise|].
  apply reads_only_bind.
  - apply reads_only_try_except; [apply chat_reads|]. intros. reads_auto.
  - intros. apply while_tool_calls_reads.
Qed.

Lemma wait_for_reads {A} (coro : (nat -> bool) -> M A) timeout :
  (forall cancel, reads_only (coro cancel)) -> reads_only (wait_for W coro timeout).
Proof.
  intros H self. unfold wait_for. specialize (H (deadline_expires W timeout) self).
  destruct (coro _ self) as [[[a|e| |] self1] t1]; simpl in *; assumption.
Qed.

Lemma deadline_part_reads fuel user_query :
  reads_only
    (except_timeout
       (wait_for W (fun cancel => process_query W fuel cancel (query user_query)) 300)
       (raise (HTTPException 504 "Request timeout"))).
Proof.
  intros self. unfold except_timeout.
  pose proof (wait_for_reads
                (fun cancel => process_query W fuel cancel (query user_query)) 300
                (fun cancel => process_query_reads fuel cancel _) self) as H.
  destruct (wait_for W _ 300 self) as [[[a|e| |] self1] t1]; simpl in *;
    try assumption.
  destruct e; simpl; assumption.
Qed.

Lemma state_bind_reads {A B} (m : M A) (f : A -> M B) self :
  (forall a, reads_only (f a)) ->
  snd (fst (bind m f self)) = snd (fst (m self)).
Proof.
  intros Hf. unfold bind.
  destruct (m self) as [[[a|e| |] self1] t1]; try reflexivity.
  specialize (Hf a self1). destruct (f a self1) as [[r self2] t2]. exact Hf.
Qed.

Lemma state_try_except_reads {A} (body : M A) handler self :
  (forall e, reads_only (handler e)) ->
  snd (fst (try_except body handler self)) = snd (fst (body self)).
Proof.
  intros Hh. unfold try_except.
  destruct (body self) as [[[a|e| |] self1] t1]; try reflexivity.
  specialize (Hh e self1). destruct (handler e self1) as [[r self2] t2]. exact Hh.
Qed.

(** The registry the request body leaves is the one the connect phase built. *)
Lemma guarded_body_state fuel user_query self :
  snd (fst (guarded_body W fuel user_query self))
  = snd (fst (connect_to_sse_servers W self)).
Proof.
  unfold guarded_body, request_body.
  rewrite state_try_except_reads.
  - apply state_bind_reads. intros _. apply deadline_part_reads.
  - intros e. unfold logger_error. reads_auto.
Qed.

Lemma init_ok cfg : registry_ok (MCPClient_init cfg).
Proof. repeat split; constructor. Qed.

Lemma registry_sessions_nodup self :
  registry_ok self -> NoDup (map snd (sessions self)).
Proof.
  intros (_ & Hnd & Hpeer).
  apply (NoDup_map_inv peer). rewrite map_map.
  replace (map (fun x => peer (snd x)) (sessions self)) with (keys (sessions self));
    [assumption|].
  unfold keys. apply map_ext_in. intros entry Hin.
  rewrite Forall_forall in Hpeer. symmetry. now apply Hpeer.
Qed.

End RegistryFacts.

(** ** Teardown *)

(** C2: on every exit path of a request -- a reply or any failure, the
    timeout included -- the outcome handed to the caller is the one of the
    request body (teardown raises nothing of its own), the trace of the
    request is the trace of the body followed by the teardown, the body
    closes nothing, and the teardown attempts to close each session the
    connect phase registered, once, in the order of registration; a close
    that fails is logged and the following ones are still attempted. *)
Theorem teardown_totality
  (W : World) (fuel : nat) (user_query : UserQuery)
  (r : outcome string) (final : MCPClient) (tr : list event)
  (Hrun : handle_query W fuel user_query = (r, final, tr))
  (Hexit : r <> Pending) :
  let init := MCPClient_init (mcp_config user_query) in
  let registry := snd (fst (connect_to_sse_servers W init)) in
  exists body_trace,
    guarded_body W fuel user_query init = (r, registry, body_trace) /\
    tr = body_trace ++ flat_map (close_script W) (sessions registry) /\
    closes_of body_trace = [] /\
    closes_of tr = map snd (sessions registry) /\
    NoDup (closes_of tr) /\
    final = cleared registry.
Proof.
  intros init registry.
  pose proof (guarded_body_state W fuel user_query init) as Hstate.
  pose proof (guarded_body_emits W fuel user_query init) as Hemits.
  pose proof (connect_keeps W init (init_ok _)) as Hok.
  fold registry in Hstate, Hok.
  rewrite handle_query_unfold in Hrun. fold init in Hrun.
  destruct (guarded_body W fuel user_query init) as [[rb self1] t1].
  cbn in Hstate, Hemits. subst self1.
  assert (Hes : exit_stacks registry = sessions registry) by apply Hok.
  assert (Hshape : (r, final, tr)
                   = (rb, cleared registry,
                      t1 ++ flat_map (close_script W) (sessions registry))).
  { rewrite <- Hrun, <- Hes. destruct rb; try reflexivity.
    injection Hrun as <- _ _. now elim Hexit. }
  injection Hshape as -> -> ->.
  exists t1. repeat split.
  - now apply closes_of_not_close.
  - now rewrite closes_of_app, closes_of_not_close, closes_of_close_scripts.
  - rewrite closes_of_app, closes_of_not_close, closes_of_close_scripts by assumption.
    now apply registry_sessions_nodup.
Qed.

Lemma teardown_totality_witness :
  exists body_trace,
    closes_of body_trace = [] /\
    closes_of (snd (handle_query flaky_a 3 (two_providers "cats?")))
    = [ {| peer := "a"; url := "http://a" |}; {| peer := "b"; url := "http://b" |} ].
Proof.
  destruct (teardown_totality flaky_a 3 (two_providers "cats?") _ _ _ eq_refl)
    as (body_trace & _ & _ & Hbody & Hcloses & _).
  - vm_compute. discriminate.
  - exists body_trace. split; [exact Hbody|exact Hcloses].
Defined.

(** ** The generic exception clause of the handler *)

Lemma guarded_body_unfold W fuel user_query self :
  guarded_body W fuel user_query self =
  match request_body W fuel user_query self with
  | (Raise e, self1, t1) =>
      (Raise (HTTPException 500 (str_exn e)), self1,
       t1 ++ [EvLogError ("Error processing query: " ++ str_exn e)])
  | other => other
  end.
Proof.
  unfold guarded_body, try_except.
  destruct (request_body W fuel user_query self) as [[[a|e| |] self1] t1];
    reflexivity.
Qed.

(** C10: whatever exception [e0] the body of the handler raises -- an
    HTTP-style exception with status 400 or 504 as well -- the caller is
    handed an HTTP-style exception with status 500 whose detail is
    [str(e0)], after the error is logged and the sessions are closed; so a
    request that fails is always answered with status 500. *)
Theorem every_failure_is_status_500
  (W : World) (fuel : nat) (user_query : UserQuery) :
  let init := MCPClient_init (mcp_config user_query) in
  (forall e0 self1 t1,
      request_body W fuel user_query init = (Raise e0, self1, t1) ->
      handle_query W fuel user_query
      = (Raise (HTTPException 500 (str_exn e0)), cleared self1,
         t1 ++ [EvLogError ("Error processing query: " ++ str_exn e0)]
            ++ flat_map (close_script W) (exit_stacks self1))) /\
  (forall e final tr,
      handle_query W fuel user_query = (Raise e, final, tr) ->
      status_of e = Some 500%N /\
      exists e0 self1 t1,
        request_body W fuel user_query init = (Raise e0, self1, t1) /\
        e = HTTPException 500 (str_exn e0)).
Proof.
  intros init. split.
  - intros e0 self1 t1 Hbody.
    rewrite handle_query_unfold, guarded_body_unfold. fold init.
    rewrite Hbody. now rewrite <- app_assoc.
  - intros e final tr Hrun.
    rewrite handle_query_unfold, guarded_body_unfold in Hrun. fold init in Hrun.
    destruct (request_body W fuel user_query init) as [[[a|e0| |] self1] t1];
      try discriminate.
    injection Hrun as <- _ _. split; [reflexivity|].
    now exists e0, self1, t1.
Qed.

Lemma every_failure_is_status_500_witness :
  fst (fst (handle_query scenario_A 3 (no_provider "cats?")))
  = Raise (HTTPException 500 "400: No active MCP connections").
Proof.
  pose proof (every_failure_is_status_500 scenario_A 3 (no_provider "cats?")) as [H _].
  specialize (H (HTTPException 400 "No active MCP connections") _ _ eq_refl).
  rewrite H. reflexivity.
Defined.

(** ** One tool call *)

Section LoopFacts.

Variable W : World.

(** The body of the batch loop, case by case. *)
Lemma handle_tool_call_run cancel k messages tool_call self :
  handle_tool_call W cancel (k, messages) tool_call self =
  match json_loads W (function_arguments tool_call) with
  | Err e => (Raise e, self, [])
  | Ok tool_args =>
      match re_match (function_name tool_call) with
      | None =>
          (Raise (HTTPException 400
                    ("Invalid tool call format: " ++ function_name tool_call)),
           self, [])
      | Some (server_index, tool_name) =>
          match nth_error (keys (settion_tools self))
                          (N.to_nat (int_of_digits 0 server_index)) with
          | None => (Raise IndexError, self, [])
          | Some server_name =>
              match get (sessions self) server_name with
              | None => (Raise (KeyError server_name), self, [])
              | Some session =>
                  let started := EvCallTool session tool_name tool_args in
                  if cancel k then (Cancelled, self, [started])
                  else
                    match call_tool W k session tool_name tool_args with
                    | Err e => (Raise e, self, [started])
                    | Ok result_ =>
                        let out := (session, tool_name, tool_args, result_) in
                        let messages1 := messages ++ [assistant_entry W tool_call out] in
                        let messages2 := messages1 ++ [tool_entry tool_call out] in
                        (Return (S k, messages2), self,
                         [started; EvMessages messages1; EvMessages messages2])
                    end
              end
          end
      end
  end.
Proof.
  unfold handle_tool_call.
  unfold bind at 1.
  destruct (json_loads W (function_arguments tool_call)) as [tool_args|e];
    [|reflexivity]. cbn [lift ret].
  unfold bind at 1. cbn [get_self].
  unfold bind at 1. unfold resolve.
  destruct (re_match (function_name tool_call)) as [[server_index tool_name]|];
    [|reflexivity].
  unfold bind at 1. unfold index.
  destruct (nth_error _ _) as [server_name|]; [|reflexivity]. cbn [ret].
  unfold bind at 1. unfold subscript.
  destruct (get (sessions self) server_name) as [session|]; [|reflexivity].
  cbn [ret]. unfold bind at 1. unfold await. unfold bind at 1. cbn [emit].
  destruct (cancel k); [reflexivity|].
  destruct (call_tool W k session tool_name tool_args) as [result_|e];
    reflexivity.
Qed.

Lemma handle_tool_call_dispatch cancel k messages tool_call self out :
  dispatch W self cancel k tool_call = Some out ->
  handle_tool_call W cancel (k, messages) tool_call self
  = (Return (S k, (messages ++ [assistant_entry W tool_call out])
                    ++ [tool_entry tool_call out]),
     self,
     [dispatch_event out;
      EvMessages (messages ++ [assistant_entry W tool_call out]);
      EvMessages ((messages ++ [assistant_entry W tool_call out])
                    ++ [tool_entry tool_call out])]).
Proof.
  rewrite handle_tool_call_run. unfold dispatch, parse_flat.
  destruct (json_loads W _) as [tool_args|e]; [|discriminate].
  destruct (re_match _) as [[server_index tool_name]|]; [|discriminate].
  destruct (nth_error _ _) as [server_name|]; [|discriminate].
  destruct (get _ _) as [session|]; [|discriminate].
  destruct (cancel k); [discriminate|].
  destruct (call_tool W k session tool_name tool_args) as [result_|e];
    [|discriminate].
  intros H. injection H as <-. reflexivity.
Qed.

Lemma dispatched_of_app t1 t2 :
  dispatched_of (t1 ++ t2) = dispatched_of t1 ++ dispatched_of t2.
Proof. apply flat_map_app. Qed.

Lemma snapshots_app t1 t2 : snapshots (t1 ++ t2) = snapshots t1 ++ snapshots t2.
Proof. apply flat_map_app. Qed.

Lemma chats_of_app t1 t2 : chats_of (t1 ++ t2) = chats_of t1 ++ chats_of t2.
Proof. apply flat_map_app. Qed.

Lemma split_app {A} (t1 t2 pre post : list A) x :
  t1 ++ t2 = pre ++ x :: post ->
  (exists post1, t1 = pre ++ x :: post1 /\ post = post1 ++ t2) \/
  (exists pre2, pre = t1 ++ pre2 /\ t2 = pre2 ++ x :: post).
Proof.
  revert pre. induction t1 as [|y t1 IH]; intros pre H; simpl in H.
  - right. now exists pre.
  - destruct pre as [|z pre]; simpl in H; injection H as -> H.
    + left. now exists t1.
    + destruct (IH _ H) as [(post1 & -> & ->)|(pre2 & -> & ->)].
      * left. now exists post1.
      * right. now exists pre2.
Qed.

Lemma failures_end_nil cancel k x : failures_end W cancel k x [].
Proof. intros [|ev pre] s n a post e H; discriminate. Qed.

Lemma failures_end_no_call cancel k x tr :
  dispatched_of tr = [] -> failures_end W cancel k x tr.
Proof.
  intros Hnone pre s n a post e ->.
  rewrite dispatched_of_app in Hnone. apply app_eq_nil in Hnone as [_ H].
  discriminate.
Qed.

(** Sequencing: a first part that returned held no failing call. *)
Lemma failures_end_app cancel k x t1 t2 :
  failures_end W cancel k None t1 ->
  failures_end W cancel (k + length (dispatched_of t1)) x t2 ->
  failures_end W cancel k x (t1 ++ t2).
Proof.
  intros H1 H2 pre s n a post e Heq Hc Hf.
  apply split_app in Heq as [(post1 & -> & ->)|(pre2 & -> & ->)].
  - destruct (H1 _ _ _ _ _ _ eq_refl Hc Hf) as [Habs _]. discriminate.
  - rewrite dispatched_of_app, length_app, Nat.add_assoc in Hc, Hf.
    exact (H2 _ _ _ _ _ _ eq_refl Hc Hf).
Qed.

Lemma handle_tool_call_failures cancel k messages tool_call self :
  let '(r, _, tr) := handle_tool_call W cancel (k, messages) tool_call self in
  failures_end W cancel k (exn_of r) tr /\
  (forall st', r = Return st' -> fst st' = k + length (dispatched_of tr)).
Proof.
  rewrite handle_tool_call_run.
  destruct (json_loads W _) as [tool_args|e0];
    [|split; [apply failures_end_nil|discriminate]].
  destruct (re_match _) as [[server_index tool_name]|];
    [|split; [apply failures_end_nil|discriminate]].
  destruct (nth_error _ _) as [server_name|];
    [|split; [apply failures_end_nil|discriminate]].
  destruct (get _ _) as [session|];
    [|split; [apply failures_end_nil|discriminate]].
  cbn zeta. destruct (cancel k) eqn:Hcancel.
  - split; [|discriminate].
    intros [|ev1 [|ev2 pre]] s n a post e H Hc Hf; try discriminate.
    cbn in Hc. rewrite Nat.add_0_r in Hc. congruence.
  - destruct (call_tool W k session tool_name tool_args) as [result_|e0] eqn:Hcall.
    + split.
      * intros [|ev1 [|ev2 [|ev3 [|ev4 pre]]]] s n a post e H Hc Hf;
          try discriminate.
        cbn in Hf. rewrite Nat.add_0_r in Hf. injection H as -> -> -> _.
        congruence.
      * intros st' H. injection H as <-. cbn. lia.
    + split; [|discriminate].
      intros [|ev1 [|ev2 pre]] s n a post e H Hc Hf; try discriminate.
      cbn in Hf. rewrite Nat.add_0_r in Hf. injection H as -> -> -> <-.
      rewrite Hcall in Hf. injection Hf as <-. now split.
Qed.

Lemma chat_run messages tools self :
  chat W messages tools self =
  match chat_completions_create W messages tools with
  | Ok response => (Return response, self, [EvChat messages tools])
  | Err e => (Raise e, self, [EvChat messages tools])
  end.
Proof.
  unfold chat, bind, emit, lift.
  destruct (chat_completions_create W messages tools); reflexivity.
Qed.

(** [process_query] up to its loop, case by case. *)
Lemma process_query_run fuel cancel query_ self :
  process_query W fuel cancel query_ self =
  if is_empty (sessions self) then
    (Raise (HTTPException 400 "No active MCP connections"), self, [])
  else
    let tools := build_catalog (settion_tools self) in
    match chat_completions_create W [UserMessage query_] tools with
    | Err e =>
        (Raise (HTTPException 500 ("OpenAI API调用失败: " ++ str_exn e)), self,
         [EvChat [UserMessage query_] tools;
          EvLogError ("OpenAI API调用失败: " ++ str_exn e)])
    | Ok response =>
        let '(r, self', tr) :=
          while_tool_calls W fuel cancel tools (0, [UserMessage query_]) []
            response self in
        (r, self', EvChat [UserMessage query_] tools :: tr)
    end.
Proof.
  unfold process_query. unfold bind at 1. cbn [get_self].
  destruct (is_empty (sessions self)); [reflexivity|].
  cbn zeta. unfold bind, try_except, logger_error. rewrite chat_run.
  destruct (chat_completions_create W _ _) as [response|e].
  - destruct (while_tool_calls W fuel cancel _ _ _ response self)
      as [[r self'] tr]. reflexivity.
  - reflexivity.
Qed.

End LoopFacts.

(** ** Status codes the caller receives *)

(** Whenever the deadline expires in the conversation loop, the caller is
    answered with status 500, and the sessions are closed. *)
Lemma deadline_always_answered_500 W fuel user_query self1 t0 self2 t1 :
  connect_to_sse_servers W (MCPClient_init (mcp_config user_query))
  = (Return tt, self1, t0) ->
  process_query W fuel (deadline_expires W 300) (query user_query) self1
  = (Cancelled, self2, t1) ->
  handle_query W fuel user_query
  = (Raise (HTTPException 500 "504: Request timeout"), cleared self2,
     t0 ++ (t1 ++ [EvDeadline])
        ++ [EvLogError "Error processing query: 504: Request timeout"]
        ++ flat_map (close_script W) (exit_stacks self2)).
Proof.
  intros Hconnect Hloop.
  rewrite handle_query_unfold, guarded_body_unfold.
  unfold request_body, bind. rewrite Hconnect.
  unfold except_timeout, wait_for. rewrite Hloop. cbn.
  now rewrite List.app_nil_r, <- !app_assoc.
Qed.

(** Whenever no session is registered, the request is refused before any
    call of the model, and the caller is answered with status 500. *)
Lemma no_session_always_answered_500 W fuel user_query self1 t0 :
  connect_to_sse_servers W (MCPClient_init (mcp_config user_query))
  = (Return tt, self1, t0) ->
  sessions self1 = [] ->
  handle_query W fuel user_query
  = (Raise (HTTPException 500 "400: No active MCP connections"), cleared self1,
     t0 ++ [EvLogError "Error processing query: 400: No active MCP connections"]
        ++ flat_map (close_script W) (exit_stacks self1)).
Proof.
  intros Hconnect Hnone.
  rewrite handle_query_unfold, guarded_body_unfold.
  unfold request_body, bind. rewrite Hconnect.
  unfold except_timeout, wait_for. rewrite process_query_run, Hnone. cbn.
  now rewrite List.app_nil_r, <- !app_assoc.
Qed.

(** C3, at a first response without tool calls: one provider is connected
    and the model answers the query at once with the text ["T"]; the request
    succeeds, after a single call of the model, with the empty string. *)
Theorem first_answer_text_is_dropped :
  forall fuel,
    handle_query direct_answer fuel (one_provider "cats?")
    = (Return "", closed_a "cats?",
       [EvConnect provider_a; EvListTools provider_a;
        EvChat [UserMessage "cats?"] catalog_a;
        EvClose provider_a]).
Proof. intros [|fuel]; reflexivity. Qed.

(** C4, at its two failing inputs.  With no provider the request is refused
    before any call of the model, and with an identifier whose provider
    ordinal is out of range no tool is called; but the caller is answered
    with status 500 both times, and in the second case what
    [process_query] raises is an [IndexError], not a status 400. *)
Theorem status_400_never_reaches_the_caller :
  (forall fuel,
      handle_query scenario_A fuel (no_provider "cats?")
      = (Raise (HTTPException 500 "400: No active MCP connections"),
         MCPClient_init (mcp_config (no_provider "cats?")),
         [EvLogError "Error processing query: 400: No active MCP connections"])) /\
  (forall fuel,
      handle_query scenario_C (S fuel) (one_provider "cats?")
      = (Raise (HTTPException 500 "list index out of range"), closed_a "cats?",
         [EvConnect provider_a; EvListTools provider_a;
          EvChat [UserMessage "cats?"] catalog_a;
          EvLogError "Error processing query: list index out of range";
          EvClose provider_a])) /\
  (forall fuel cancel self,
      sessions self = [("a", provider_a)] ->
      settion_tools self = [("a", [search])] ->
      fst (fst (process_query scenario_C (S fuel) cancel "cats?" self))
      = Raise IndexError).
Proof.
  split; [|split].
  - intros [|fuel]; reflexivity.
  - intros fuel. reflexivity.
  - intros fuel cancel [cfg ss ts es]. cbn [sessions settion_tools].
    intros -> ->. reflexivity.
Qed.

(** C5, at a deadline that expires during the first awaited tool call: the
    call is cancelled, [wait_for] raises the timeout, the inner clause
    turns it into status 504, and the generic clause answers the caller
    with status 500; the session is closed. *)
Theorem timeout_is_answered_500 :
  forall fuel,
    handle_query slow_tool (S fuel) (one_provider "cats?")
    = (Raise (HTTPException 500 "504: Request timeout"), closed_a "cats?",
       [EvConnect provider_a; EvListTools provider_a;
        EvChat [UserMessage "cats?"] catalog_a;
        EvCallTool provider_a "search" (JObject []);
        EvDeadline;
        EvLogError "Error processing query: 504: Request timeout";
        EvClose provider_a]).
Proof. intros fuel. reflexivity. Qed.

(** ** Failing tool calls *)

Section FailureFacts.

Variable W : World.

Lemma batch_failures cancel calls :
  forall k messages self,
    let '(r, _, tr) :=
      for_each (handle_tool_call W cancel) (k, messages) calls self in
    failures_end W cancel k (exn_of r) tr /\
    (forall st', r = Return st' -> fst st' = k + length (dispatched_of tr)).
Proof.
  induction calls as [|tool_call calls IH]; intros k messages self.
  - cbn. split; [apply failures_end_nil|].
    intros st' H. injection H as <-. cbn. lia.
  - cbn [for_each]. unfold bind.
    pose proof (handle_tool_call_failures W cancel k messages tool_call self) as H1.
    destruct (handle_tool_call W cancel (k, messages) tool_call self)
      as [[[[k1 messages1]|e| |] self1] t1]; cbn in H1;
      try (split; [apply H1|discriminate]).
    destruct H1 as [Hf1 Hk1]. specialize (Hk1 _ eq_refl). cbn in Hk1. subst k1.
    specialize (IH (k + length (dispatched_of t1)) messages1 self1).
    destruct (for_each _ _ calls self1) as [[r self2] t2].
    destruct IH as [Hf2 Hk2]. split.
    + now apply failures_end_app.
    + intros st' Hr. rewrite (Hk2 _ Hr), dispatched_of_app, length_app. lia.
Qed.

Lemma chat_failures cancel k messages tools self :
  let '(r, _, tr) := chat W messages tools self in
  failures_end W cancel k (exn_of r) tr /\ dispatched_of tr = [].
Proof.
  unfold chat, bind, emit, lift.
  destruct (chat_completions_create W messages tools); cbn;
    (split; [now apply failures_end_no_call|reflexivity]).
Qed.

Lemma while_failures cancel tools fuel :
  forall k messages final_text message_ self,
    let '(r, _, tr) :=
      while_tool_calls W fuel cancel tools (k, messages) final_text message_ self in
    failures_end W cancel k (exn_of r) tr.
Proof.
  induction fuel as [|fuel IH]; intros k messages final_text message_ self;
    cbn [while_tool_calls]; destruct (tool_calls message_) as [|c calls] eqn:E;
    try apply failures_end_nil.
  unfold bind at 1.
  pose proof (batch_failures cancel (c :: calls) k messages self) as H1.
  destruct (for_each _ _ (c :: calls) self) as [[[[k1 messages1]|e| |] self1] t1];
    try apply H1.
  destruct H1 as [Hf1 Hk1]. specialize (Hk1 _ eq_refl). cbn in Hk1. subst k1.
  unfold bind at 1. cbn [snd].
  pose proof (chat_failures cancel (k + length (dispatched_of t1))
                messages1 tools self1) as H2.
  destruct (chat W messages1 tools self1) as [[[response|e| |] self2] t2];
    destruct H2 as [Hf2 Hnone];
    try (apply failures_end_app; assumption).
  specialize (IH (k + length (dispatched_of t1)) messages1
                 (append_content final_text response) response self2).
  destruct (while_tool_calls W fuel cancel tools _ _ response self2)
    as [[r self3] t3].
  apply failures_end_app; [assumption|].
  apply failures_end_app; [now apply failures_end_no_call|].
  now rewrite Hnone, Nat.add_0_r.
Qed.

Lemma process_query_failures fuel cancel query_ self :
  let '(r, _, tr) := process_query W fuel cancel query_ self in
  failures_end W cancel 0 (exn_of r) tr.
Proof.
  unfold process_query. unfold bind at 1. cbn [get_self].
  destruct (is_empty (sessions self)); [apply failures_end_nil|].
  unfold bind at 1. unfold try_except, logger_error.
  pose proof (chat_failures cancel 0 [UserMessage query_]
                (build_catalog (settion_tools self)) self) as H1.
  destruct (chat W _ _ self) as [[[response|e| |] self1] t1];
    destruct H1 as [Hf1 Hnone]; cbn; try assumption.
  - pose proof (while_failures cancel (build_catalog (settion_tools self)) fuel
                  0 [UserMessage query_] [] response self1) as H2.
    destruct (while_tool_calls W fuel cancel _ _ _ response self1)
      as [[r self2] t2].
    apply failures_end_app; [now apply failures_end_no_call|].
    now rewrite Hnone.
  - apply failures_end_no_call. rewrite dispatched_of_app, Hnone. reflexivity.
Qed.

End FailureFacts.

(** C7, as stated, fails: when the dispatched call of [search] raises, no
    entry is added to the transcript and the model is not called again; the
    request is aborted and answered with status 500. *)
Lemma failed_tool_call_aborts_the_request :
  exists final tr,
    handle_query broken_tool 3 (one_provider "cats?")
    = (Raise (HTTPException 500 "boom"), final, tr) /\
    dispatched_of tr = [(provider_a, "search", JObject [])] /\
    snapshots tr = [[UserMessage "cats?"]] /\
    length (chats_of tr) = 1.
Proof. eexists _, _. repeat split. Qed.

(** C7 (amended): when a tool call that was dispatched raises, nothing
    follows it in the conversation loop -- no entry is appended to the
    transcript, the model is not called again, no further tool is called and
    the call is not retried -- and [process_query] ends with the very
    exception the call raised, not wrapped. *)
Theorem tool_failure_propagates
  (W : World) (fuel : nat) (cancel : nat -> bool) (query_ : string)
  (self self' : MCPClient) (r : outcome string)
  (pre post : list event) (session : ClientSession) (tool_name : string)
  (tool_args : json) (e : exn)
  (Hrun : process_query W fuel cancel query_ self
          = (r, self', pre ++ EvCallTool session tool_name tool_args :: post))
  (Hawaited : cancel (length (dispatched_of pre)) = false)
  (Hfails : call_tool W (length (dispatched_of pre)) session tool_name tool_args
            = Err e) :
  r = Raise e /\ post = [].
Proof.
  pose proof (process_query_failures W fuel cancel query_ self) as H.
  rewrite Hrun in H.
  destruct (H pre session tool_name tool_args post e eq_refl Hawaited Hfails)
    as [Hr ->].
  split; [|reflexivity].
  destruct r; cbn in Hr; congruence.
Qed.

Lemma tool_failure_propagates_witness :
  fst (fst (process_query broken_tool 3 (fun _ => false) "cats?"
              {| config := mcp_config (one_provider "cats?");
                 sessions := [("a", provider_a)];
                 settion_tools := [("a", [search])];
                 exit_stacks := [("a", provider_a)] |}))
  = Raise (Error "boom").
Proof.
  pose proof (tool_failure_propagates broken_tool 3 (fun _ => false) "cats?"
                {| config := mcp_config (one_provider "cats?");
                   sessions := [("a", provider_a)];
                   settion_tools := [("a", [search])];
                   exit_stacks := [("a", provider_a)] |}
                _ _ [EvChat [UserMessage "cats?"] catalog_a] []
                provider_a "search" (JObject []) (Error "boom")
                eq_refl eq_refl eq_refl) as [H _].
  exact H.
Defined.

(** ** The transcript *)

Lemma well_paired_app_assistant prev l calls :
  well_paired prev l = true ->
  well_paired prev (l ++ [AssistantMessage calls]) = true.
Proof.
  revert prev. induction l as [|m l IH]; intros prev H; simpl in *.
  - reflexivity.
  - apply andb_true_iff in H as [H1 H2]. rewrite H1. simpl. now apply IH.
Qed.

Lemma well_paired_app_tool prev l calls i text :
  well_paired prev l = true ->
  existsb (fun c => String.eqb (id c) i) calls = true ->
  well_paired prev ((l ++ [AssistantMessage calls]) ++ [ToolMessage i text]) = true.
Proof.
  revert prev. induction l as [|m l IH]; intros prev H Hid; simpl in *.
  - now rewrite Hid.
  - apply andb_true_iff in H as [H1 H2]. rewrite H1. simpl. now apply IH.
Qed.

Lemma grows_from_weaken m m' snaps :
  (exists added, m' = m ++ added) -> grows_from m' snaps -> grows_from m snaps.
Proof.
  intros [added ->] H. destruct snaps as [|x snaps]; [exact I|].
  destruct H as [[added' ->] H]. split; [|exact H].
  exists (added ++ added'). now rewrite app_assoc.
Qed.

Lemma last_cons {A} (x : A) l d : last (x :: l) d = last l x.
Proof.
  revert x d. induction l as [|y l IH]; intros x d; [reflexivity|].
  change (last (x :: y :: l) d) with (last (y :: l) d).
  now rewrite (IH y d), (IH y x).
Qed.

Lemma last_app_default {A} (l1 l2 : list A) d :
  last (l1 ++ l2) d = last l2 (last l1 d).
Proof.
  revert d. induction l1 as [|x l1 IH]; intros d; [reflexivity|].
  rewrite <- app_comm_cons, !last_cons. apply IH.
Qed.

Lemma grows_from_app m l1 l2 :
  grows_from m l1 -> grows_from (last l1 m) l2 -> grows_from m (l1 ++ l2).
Proof.
  revert m. induction l1 as [|x l1 IH]; intros m H1 H2; [exact H2|].
  destruct H1 as [Hx H1]. rewrite last_cons in H2.
  split; [exact Hx|]. now apply IH.
Qed.

Lemma history_ok_nil messages tr : snapshots tr = [] -> history_ok messages tr.
Proof. intros H. unfold history_ok. rewrite H. now split. Qed.

Lemma history_ok_app messages t1 t2 :
  history_ok messages t1 ->
  history_ok (last (snapshots t1) messages) t2 ->
  history_ok messages (t1 ++ t2).
Proof.
  intros [Hw1 Hg1] [Hw2 Hg2]. unfold history_ok. rewrite snapshots_app. split.
  - apply Forall_app. now split.
  - now apply grows_from_app.
Qed.

Lemma history_ok_last messages tr :
  well_paired None messages = true -> history_ok messages tr ->
  well_paired None (last (snapshots tr) messages) = true.
Proof.
  intros Hm [Hw _]. destruct (snapshots tr) as [|x l] eqn:E; [exact Hm|].
  rewrite Forall_forall in Hw. apply Hw.
  destruct (exists_last (l := x :: l)) as (l' & y & Hy); [discriminate|].
  rewrite Hy, last_last. apply in_or_app. right. now left.
Qed.

Section TranscriptFacts.

Variable W : World.

Lemma handle_tool_call_history cancel k messages tool_call self :
  well_paired None messages = true ->
  let '(r, _, tr) := handle_tool_call W cancel (k, messages) tool_call self in
  history_ok messages tr /\
  (forall st', r = Return st' -> snd st' = last (snapshots tr) messages).
Proof.
  intros Hm. rewrite handle_tool_call_run.
  destruct (json_loads W _) as [tool_args|e0];
    [|split; [now apply history_ok_nil|discriminate]].
  destruct (re_match _) as [[server_index tool_name]|];
    [|split; [now apply history_ok_nil|discriminate]].
  destruct (nth_error _ _) as [server_name|];
    [|split; [now apply history_ok_nil|discriminate]].
  destruct (get _ _) as [session|];
    [|split; [now apply history_ok_nil|discriminate]].
  cbn zeta. destruct (cancel k);
    [split; [now apply history_ok_nil|discriminate]|].
  destruct (call_tool W k session tool_name tool_args) as [result_|e0];
    [|split; [now apply history_ok_nil|discriminate]].
  split.
  - split; cbn.
    + repeat constructor.
      * now apply well_paired_app_assistant.
      * apply well_paired_app_tool; [exact Hm|].
        cbn. now rewrite String.eqb_refl.
    + repeat split; eexists; reflexivity.
  - intros st' H. injection H as <-. reflexivity.
Qed.

Lemma batch_history cancel calls :
  forall k messages self,
    well_paired None messages = true ->
    let '(r, _, tr) :=
      for_each (handle_tool_call W cancel) (k, messages) calls self in
    history_ok messages tr /\
    (forall st', r = Return st' -> snd st' = last (snapshots tr) messages).
Proof.
  induction calls as [|tool_call calls IH]; intros k messages self Hm.
  - cbn. split; [now apply history_ok_nil|].
    intros st' H. now injection H as <-.
  - cbn [for_each]. unfold bind.
    pose proof (handle_tool_call_history cancel k messages tool_call self Hm) as H1.
    destruct (handle_tool_call W cancel (k, messages) tool_call self)
      as [[[[k1 messages1]|e| |] self1] t1];
      try (split; [apply H1|discriminate]).
    destruct H1 as [Hh1 Hl1]. specialize (Hl1 _ eq_refl). cbn in Hl1.
    assert (Hm1 : well_paired None messages1 = true).
    { rewrite Hl1. now apply history_ok_last. }
    specialize (IH k1 messages1 self1 Hm1).
    destruct (for_each _ _ calls self1) as [[r self2] t2].
    destruct IH as [Hh2 Hl2]. split.
    + apply history_ok_app; [assumption|]. now rewrite <- Hl1.
    + intros st' Hr. rewrite (Hl2 _ Hr), snapshots_app, last_app_default.
      now rewrite <- Hl1.
Qed.

Lemma chat_history messages tools self :
  well_paired None messages = true ->
  let '(_, _, tr) := chat W messages tools self in
  history_ok messages tr /\ last (snapshots tr) messages = messages.
Proof.
  intros Hm. unfold chat, bind, emit, lift.
  destruct (chat_completions_create W messages tools); cbn;
    (split; [|reflexivity]);
    (split; [now repeat constructor|]);
    (split; [exists []; now rewrite List.app_nil_r|exact I]).
Qed.

Lemma while_history cancel tools fuel :
  forall k messages final_text message_ self,
    well_paired None messages = true ->
    let '(_, _, tr) :=
      while_tool_calls W fuel cancel tools (k, messages) final_text message_ self in
    history_ok messages tr.
Proof.
  induction fuel as [|fuel IH]; intros k messages final_text message_ self Hm;
    cbn [while_tool_calls]; destruct (tool_calls message_) as [|c calls] eqn:E;
    try (now apply history_ok_nil).
  unfold bind at 1.
  pose proof (batch_history cancel (c :: calls) k messages self Hm) as H1.
  destruct (for_each _ _ (c :: calls) self) as [[[[k1 messages1]|e| |] self1] t1];
    try apply H1.
  destruct H1 as [Hh1 Hl1]. specialize (Hl1 _ eq_refl). cbn in Hl1.
  assert (Hm1 : well_paired None messages1 = true).
  { rewrite Hl1. now apply history_ok_last. }
  unfold bind at 1. cbn [snd].
  pose proof (chat_history messages1 tools self1 Hm1) as H2.
  destruct (chat W messages1 tools self1) as [[[response|e| |] self2] t2];
    destruct H2 as [Hh2 Hl2];
    try (apply history_ok_app; [assumption|now rewrite <- Hl1]).
  specialize (IH k1 messages1 (append_content final_text response) response
                 self2 Hm1).
  destruct (while_tool_calls W fuel cancel tools _ _ response self2)
    as [[r self3] t3].
  apply history_ok_app; [assumption|]. rewrite <- Hl1.
  apply history_ok_app; [assumption|]. now rewrite Hl2.
Qed.

Lemma process_query_history fuel cancel query_ self :
  history_ok [UserMessage query_] (snd (process_query W fuel cancel query_ self)).
Proof.
  unfold process_query. unfold bind at 1. cbn [get_self].
  destruct (is_empty (sessions self)); [now apply history_ok_nil|].
  unfold bind at 1. unfold try_except, logger_error.
  pose proof (chat_history [UserMessage query_]
                (build_catalog (settion_tools self)) self eq_refl) as H1.
  destruct (chat W _ _ self) as [[[response|e| |] self1] t1];
    destruct H1 as [Hh1 Hl1]; cbn [snd]; try assumption.
  - pose proof (while_history cancel (build_catalog (settion_tools self)) fuel
                  0 [UserMessage query_] [] response self1 eq_refl) as H2.
    destruct (while_tool_calls W fuel cancel _ _ _ response self1)
      as [[r self2] t2]. cbn [snd]. rewrite List.app_nil_l.
    apply history_ok_app; [assumption|]. now rewrite Hl1.
  - unfold bind, emit, raise. cbn [snd]. rewrite List.app_nil_l.
    apply history_ok_app; [assumption|]. now apply history_ok_nil.
Qed.

(** The values of [messages] a request records are those of its
    conversation loop. *)
Lemma handle_query_snapshots fuel user_query :
  snapshots (snd (handle_query W fuel user_query)) = [] \/
  exists self,
    snapshots (snd (handle_query W fuel user_query))
    = snapshots (snd (process_query W fuel (deadline_expires W 300)
                        (query user_query) self)).
Proof.
  assert (Hclose : forall stacks, snapshots (flat_map (close_script W) stacks) = []).
  { induction stacks as [|[n es] stacks IH]; [reflexivity|].
    cbn [flat_map]. rewrite snapshots_app, IH. cbn.
    destruct (aclose W es); reflexivity. }
  assert (Hconnect : forall self, snapshots (snd (connect_to_sse_servers W self)) = []).
  { intros self. pose proof (connect_emits W self) as H.
    induction H as [|ev tr Hev _ IH]; [reflexivity|].
    destruct ev; cbn in *; try discriminate; exact IH. }
  set (init := MCPClient_init (mcp_config user_query)).
  assert (Hbody :
    snapshots (snd (request_body W fuel user_query init)) = [] \/
    exists self,
      snapshots (snd (request_body W fuel user_query init))
      = snapshots (snd (process_query W fuel (deadline_expires W 300)
                          (query user_query) self))).
  { unfold request_body, bind. specialize (Hconnect init).
    destruct (connect_to_sse_servers W init) as [[[[]|e| |] self1] t1];
      cbn [snd] in *; try (now left).
    right. exists self1. unfold except_timeout, wait_for.
    destruct (process_query W fuel _ (query user_query) self1)
      as [[[a|e| |] self2] t2]; cbn [snd];
      try destruct e; cbn;
      rewrite ?snapshots_app, ?Hconnect, ?List.app_nil_r; reflexivity. }
  rewrite handle_query_unfold, guarded_body_unfold. fold init.
  destruct (request_body W fuel user_query init) as [[[a|e| |] self1] t1];
    cbn [snd] in *;
    rewrite ?snapshots_app, ?Hclose, ?List.app_nil_r; cbn;
    rewrite ?List.app_nil_r; exact Hbody.
Qed.

End TranscriptFacts.

(** C9: every value the transcript takes during a request -- after each
    append, and each time it is handed to the model -- is such that each
    tool entry comes right after an assistant entry holding a call with the
    same id; and each value extends the one before, starting from the
    query: entries are only appended. *)
Theorem transcript_invariant (W : World) (fuel : nat) (user_query : UserQuery) :
  let tr := snd (handle_query W fuel user_query) in
  Forall (fun messages => well_paired None messages = true) (snapshots tr) /\
  grows_from [UserMessage (query user_query)] (snapshots tr).
Proof.
  cbn zeta.
  destruct (handle_query_snapshots W fuel user_query) as [->|[self ->]].
  - now split.
  - apply process_query_history.
Qed.

(** ** A batch of tool calls *)

Section BatchFacts.

Variable W : World.

(** A batch whose calls all go through runs as the specification
    prescribes. *)
Lemma batch_run cancel calls :
  forall outs k messages self,
    batch_goes_through W self cancel k calls outs ->
    for_each (handle_tool_call W cancel) (k, messages) calls self
    = (Return (k + length calls, batch_transcript W messages (combine calls outs)),
       self, batch_script W messages (combine calls outs)).
Proof.
  induction calls as [|tool_call calls IH]; intros [|out outs] k messages self H;
    try contradiction.
  - cbn. now rewrite Nat.add_0_r.
  - destruct H as [Hfirst Hrest].
    cbn [for_each combine batch_script batch_transcript length]. unfold bind.
    rewrite (handle_tool_call_dispatch W cancel k messages tool_call self out Hfirst).
    rewrite (IH outs (S k) _ self Hrest).
    rewrite Nat.add_succ_r. reflexivity.
Qed.

Lemma handle_tool_call_return cancel k messages tool_call self st' self' tr :
  handle_tool_call W cancel (k, messages) tool_call self = (Return st', self', tr) ->
  exists out, dispatch W self cancel k tool_call = Some out.
Proof.
  rewrite handle_tool_call_run. unfold dispatch, parse_flat.
  destruct (json_loads W _) as [tool_args|e]; [|discriminate].
  destruct (re_match _) as [[server_index tool_name]|]; [|discriminate].
  destruct (nth_error _ _) as [server_name|]; [|discriminate].
  destruct (get _ _) as [session|]; [|discriminate].
  cbn zeta. destruct (cancel k); [discriminate|].
  destruct (call_tool W k session tool_name tool_args) as [result_|e];
    [|discriminate].
  intros _. eexists. reflexivity.
Qed.

(** A batch that is gone through to its end is one whose calls all went
    through. *)
Lemma batch_return cancel calls :
  forall k messages self st' self' tr,
    for_each (handle_tool_call W cancel) (k, messages) calls self
    = (Return st', self', tr) ->
    exists outs, batch_goes_through W self cancel k calls outs.
Proof.
  induction calls as [|tool_call calls IH]; intros k messages self st' self' tr H.
  - now exists [].
  - cbn [for_each] in H. unfold bind in H.
    destruct (handle_tool_call W cancel (k, messages) tool_call self)
      as [[[st1|e| |] self1] t1] eqn:E; try discriminate.
    destruct (handle_tool_call_return _ _ _ _ _ _ _ _ E) as [out Hout].
    rewrite (handle_tool_call_dispatch W cancel k messages tool_call self out Hout)
      in E.
    injection E as <- <- _.
    destruct (for_each _ _ calls self) as [[r2 self2] t2] eqn:E2.
    injection H as -> _ _.
    destruct (IH _ _ _ _ _ _ E2) as [outs Houts].
    exists (out :: outs). now split.
Qed.

Lemma batch_no_chat cancel calls st self :
  chats_of (snd (for_each (handle_tool_call W cancel) st calls self)) = [].
Proof.
  assert (H : emits (fun ev => match ev with EvChat _ _ => false | _ => true end)
                    (for_each (handle_tool_call W cancel) st calls)).
  { apply emits_for_each. intros st' x.
    now apply handle_tool_call_emits_only. }
  specialize (H self).
  induction H as [|ev tr Hev _ IH]; [reflexivity|].
  destruct ev; cbn in *; try discriminate; exact IH.
Qed.

(** The model is always called with the catalog the loop was given. *)
Lemma while_same_catalog cancel tools fuel :
  forall st final_text message_ self,
    Forall (fun c => snd c = tools)
      (chats_of (snd (while_tool_calls W fuel cancel tools st final_text
                        message_ self))).
Proof.
  induction fuel as [|fuel IH]; intros st final_text message_ self;
    cbn [while_tool_calls]; destruct (tool_calls message_) as [|c calls] eqn:E;
    try (now constructor).
  unfold bind at 1.
  pose proof (batch_no_chat cancel (c :: calls) st self) as H1.
  destruct (for_each _ _ (c :: calls) self) as [[[st1|e| |] self1] t1];
    cbn [snd] in *; try (rewrite H1; now constructor).
  unfold bind at 1. unfold chat at 1. unfold bind at 1. cbn [emit].
  destruct (chat_completions_create W (snd st1) tools) as [response|e];
    cbn [lift ret raise].
  - specialize (IH st1 (append_content final_text response) response self1).
    destruct (while_tool_calls W fuel cancel tools st1 _ response self1)
      as [[r self3] t3]. cbn [snd] in *.
    rewrite chats_of_app, H1. cbn. now constructor.
  - cbn [snd]. rewrite chats_of_app, H1. cbn. now repeat constructor.
Qed.

Lemma process_query_same_catalog fuel cancel query_ self :
  Forall (fun c => snd c = build_catalog (settion_tools self))
    (chats_of (snd (process_query W fuel cancel query_ self))).
Proof.
  rewrite process_query_run.
  destruct (is_empty (sessions self)); [now constructor|]. cbn zeta.
  destruct (chat_completions_create W _ _) as [response|e].
  - pose proof (while_same_catalog cancel (build_catalog (settion_tools self))
                  fuel (0, [UserMessage query_]) [] response self) as H.
    destruct (while_tool_calls W fuel cancel _ _ _ response self)
      as [[r self2] t2]. cbn in *. now constructor.
  - cbn. now repeat constructor.
Qed.

End BatchFacts.

(** C8: one turn of the loop on a model response that holds tool calls.
    When every call of the batch goes through, the turn dispatches the
    calls one at a time in the order of the response, each followed by its
    two transcript entries -- the assistant entry, then the tool entry with
    the call id and the string form of the result -- before the next call
    is dispatched, and then calls the model again, with the transcript that
    holds every entry of the batch and with the tool catalog the loop was
    given.  The model is called again only then: a turn in which the model
    is called is one whose batch went through to its last call.  Throughout
    a request the catalog is the one built from the registry. *)
Theorem batch_execution_order
  (W : World) (fuel : nat) (cancel : nat -> bool) (tools : list ToolSpec)
  (k : nat) (messages : list message) (final_text : list string)
  (message_ : ChatMessage) (self : MCPClient)
  (Hbatch : tool_calls message_ <> []) :
  let turn :=
    while_tool_calls W (S fuel) cancel tools (k, messages) final_text message_ self in
  (forall outs,
      batch_goes_through W self cancel k (tool_calls message_) outs ->
      let batch := combine (tool_calls message_) outs in
      (exists r self' rest,
          turn = (r, self',
                  batch_script W messages batch
                    ++ EvChat (batch_transcript W messages batch) tools :: rest)) /\
      dispatched_of (batch_script W messages batch)
      = map (fun out => (fst (fst (fst out)), snd (fst (fst out)), snd (fst out)))
            outs) /\
  (chats_of (snd turn) <> [] ->
   exists outs, batch_goes_through W self cancel k (tool_calls message_) outs) /\
  (forall fuel' query_,
      Forall (fun c => snd c = build_catalog (settion_tools self))
        (chats_of (snd (process_query W fuel' cancel query_ self)))).
Proof.
  intros turn. split; [|split].
  - intros outs Hgo batch. split.
    + subst turn. cbn [while_tool_calls].
      destruct (tool_calls message_) as [|c calls] eqn:E; [now elim Hbatch|].
      unfold bind at 1.
      rewrite (batch_run W cancel (c :: calls) outs k messages self Hgo).
      fold batch. unfold bind at 1. rewrite chat_run. cbn [snd].
      destruct (chat_completions_create W _ tools) as [response|e].
      * destruct (while_tool_calls W fuel cancel tools _ _ response self)
          as [[r self3] t3].
        eexists _, _, _. reflexivity.
      * eexists _, _, _. reflexivity.
    + subst batch. clear Hbatch turn.
      revert outs k messages Hgo.
      induction (tool_calls message_) as [|c calls IH];
        intros [|out outs] k messages H; try contradiction; [reflexivity|].
      destruct H as [_ Hrest].
      destruct out as [[[session tool_name] tool_args] result_].
      cbn. f_equal. exact (IH outs (S k) _ Hrest).
  - subst turn. cbn [while_tool_calls].
    destruct (tool_calls message_) as [|c calls] eqn:E; [now elim Hbatch|].
    unfold bind at 1.
    pose proof (batch_no_chat W cancel (c :: calls) (k, messages) self) as Hnone.
    destruct (for_each _ _ (c :: calls) self) as [[[st1|e| |] self1] t1] eqn:Erun;
      cbn [snd] in *; try (intros Hchat; now elim Hchat).
    intros _. eapply batch_return. exact Erun.
  - intros fuel' query_. apply process_query_same_catalog.
Qed.

Lemma batch_execution_order_witness :
  exists r self' rest,
    while_tool_calls scenario_batch 3 (fun _ => false) (build_catalog [("a", [search]); ("b", [search])])
      (0, [UserMessage "cats?"]) [] both_calls (connected_ab "cats?")
    = (r, self',
       [EvCallTool provider_a "search" (JObject []);
        EvMessages [UserMessage "cats?";
                    AssistantMessage [call_with "call_1" "search"]];
        EvMessages [UserMessage "cats?";
                    AssistantMessage [call_with "call_1" "search"];
                    ToolMessage "call_1" "a"];
        EvCallTool provider_b "search" (JObject []);
        EvMessages [UserMessage "cats?";
                    AssistantMessage [call_with "call_1" "search"];
                    ToolMessage "call_1" "a";
                    AssistantMessage [call_with "call_2" "search"]];
        EvMessages [UserMessage "cats?";
                    AssistantMessage [call_with "call_1" "search"];
                    ToolMessage "call_1" "a";
                    AssistantMessage [call_with "call_2" "search"];
                    ToolMessage "call_2" "b"]]
         ++ EvChat [UserMessage "cats?";
                    AssistantMessage [call_with "call_1" "search"];
                    ToolMessage "call_1" "a";
                    AssistantMessage [call_with "call_2" "search"];
                    ToolMessage "call_2" "b"]
                   (build_catalog [("a", [search]); ("b", [search])]) :: rest).
Proof.
  destruct (batch_execution_order scenario_batch 2 (fun _ => false)
              (build_catalog [("a", [search]); ("b", [search])])
              0 [UserMessage "cats?"] [] both_calls (connected_ab "cats?"))
    as [H _].
  - discriminate.
  - destruct (H [(provider_a, "search", JObject [], {| str_content := "a" |});
                 (provider_b, "search", JObject [], {| str_content := "b" |})])
      as [Hturn _].
    + repeat split.
    + exact Hturn.
Defined.

(** ** Best-effort connect *)

Section ConnectFacts.

Variable W : World.

Lemma attempts_of_app t1 t2 :
  attempts_of (t1 ++ t2) = attempts_of t1 ++ attempts_of t2.
Proof. apply flat_map_app. Qed.

Lemma errors_logged_app t1 t2 :
  errors_logged (t1 ++ t2) = errors_logged t1 ++ errors_logged t2.
Proof. apply flat_map_app. Qed.

Lemma pick_cons {A B} (f : A -> option B) x l :
  pick f (x :: l) = pick f [x] ++ pick f l.
Proof. unfold pick. cbn. now rewrite List.app_nil_r. Qed.

Lemma grown_nil self : grown W self [] = self.
Proof. destruct self. unfold grown. cbn. now rewrite !List.app_nil_r. Qed.

(** One provider of the list: the loop body returns, whatever happens to
    the connection. *)
Lemma connect_server_step server_name server_config self :
  typed (server_name, server_config) ->
  fresh_for self [(server_name, server_config)] ->
  exists tr,
    connect_server W server_name server_config self
    = (Return tt, grown W self [(server_name, server_config)], tr) /\
    attempts_of tr = pick endpoint [(server_name, server_config)] /\
    length (errors_logged tr)
    + length (pick (fetched_tools W) [(server_name, server_config)])
    = length (filter is_sse [(server_name, server_config)]).
Proof.
  intros Htyped Hfresh.
  destruct (Hfresh server_name (or_introl eq_refl)) as (Hs & Ht & He).
  unfold typed in Htyped. cbn [snd] in Htyped.
  unfold connect_server, subscript, grown, pick, connected_session, fetched_tools,
    endpoint, is_sse.
  cbn [flat_map filter snd fst].
  destruct (get server_config "type") as [type_|]; [clear Htyped|now elim Htyped].
  unfold bind at 1. cbn [ret].
  destruct (String.eqb type_ "sse").
  2:{ exists []. cbn. rewrite !List.app_nil_r. destruct self. now repeat split. }
  unfold try_except, logger_error. rewrite connect_attempt_run.
  destruct (get server_config "url") as [u|].
  2:{ eexists. cbn. rewrite !List.app_nil_r. destruct self. now repeat split. }
  cbn zeta. unfold connects.
  destruct (open_streams W _) as [[]|e].
  2:{ eexists. cbn. rewrite !List.app_nil_r. destruct self. now repeat split. }
  destruct (open_session W _) as [[]|e].
  2:{ eexists. cbn. rewrite !List.app_nil_r. destruct self. now repeat split. }
  destruct (initialize W _) as [[]|e].
  2:{ eexists. cbn. rewrite !List.app_nil_r. destruct self. now repeat split. }
  destruct (list_tools W _) as [tools|e]; eexists; cbn;
    unfold registered, listed; cbn;
    rewrite ?(set_fresh _ _ _ Hs), ?(set_fresh _ _ _ Ht), ?(set_fresh _ _ _ He),
      ?List.app_nil_r;
    (split; [reflexivity|split; reflexivity]).
Qed.

Lemma fresh_for_grown self entry rest :
  NoDup (keys (entry :: rest)) ->
  fresh_for self (entry :: rest) ->
  fresh_for (grown W self [entry]) rest.
Proof.
  intros Hnd Hfresh k Hk.
  destruct (Hfresh k (or_intror Hk)) as (Hs & Ht & He).
  assert (Hne : k <> fst entry).
  { intros ->. inversion Hnd; subst. contradiction. }
  assert (Hc : forall x, In x (keys (pick (connected_session W) [entry])) ->
                         x = fst entry).
  { unfold pick, connected_session. cbn. intros x.
    destruct (endpoint entry); [|intros []].
    destruct (connects W c); cbn; intuition. }
  assert (Hf : forall x, In x (keys (pick (fetched_tools W) [entry])) ->
                         x = fst entry).
  { unfold pick, fetched_tools. cbn. intros x.
    destruct (endpoint entry); [|intros []].
    destruct (connects W c); [|intros []].
    destruct (list_tools W c); cbn; intuition. }
  unfold grown, keys. cbn [sessions settion_tools exit_stacks].
  rewrite !map_app.
  repeat split; intros Hin; apply in_app_or in Hin as [Hin|Hin]; auto;
    first [apply Hc in Hin|apply Hf in Hin]; contradiction.
Qed.

Lemma grown_grown self entry rest :
  grown W (grown W self [entry]) rest = grown W self (entry :: rest).
Proof.
  unfold grown. cbn [config sessions settion_tools exit_stacks].
  rewrite (pick_cons (connected_session W) entry rest),
    (pick_cons (fetched_tools W) entry rest), !app_assoc.
  reflexivity.
Qed.

Lemma connect_loop_run providers :
  forall self,
    NoDup (keys providers) ->
    Forall typed providers ->
    fresh_for self providers ->
    exists tr,
      for_each (fun _ '(server_name, server_config) =>
                  connect_server W server_name server_config)
               tt providers self
      = (Return tt, grown W self providers, tr) /\
      attempts_of tr = pick endpoint providers /\
      length (errors_logged tr) + length (pick (fetched_tools W) providers)
      = length (filter is_sse providers).
Proof.
  induction providers as [|[server_name server_config] providers IH];
    intros self Hnd Htyped Hfresh.
  - exists []. rewrite grown_nil. now repeat split.
  - inversion Htyped as [|? ? Hty Htys]; subst.
    assert (Hfresh1 : fresh_for self [(server_name, server_config)]).
    { intros k [<-|[]]. apply Hfresh. now left. }
    destruct (connect_server_step server_name server_config self Hty Hfresh1)
      as (t1 & Hrun1 & Hatt1 & Hlog1).
    assert (Hnd' : NoDup (keys providers)) by now inversion Hnd.
    destruct (IH _ Hnd' Htys (fresh_for_grown self _ _ Hnd Hfresh))
      as (t2 & Hrun2 & Hatt2 & Hlog2).
    exists (t1 ++ t2). cbn [for_each]. unfold bind. rewrite Hrun1, Hrun2.
    rewrite grown_grown. split; [reflexivity|].
    rewrite attempts_of_app, errors_logged_app, length_app, Hatt1, Hatt2.
    rewrite (pick_cons endpoint (server_name, server_config) providers),
      (pick_cons (fetched_tools W) (server_name, server_config) providers),
      length_app.
    split; [reflexivity|].
    cbn [filter] in *.
    destruct (is_sse (server_name, server_config)); cbn [length] in *; lia.
Qed.

Lemma connect_unfold self :
  connect_to_sse_servers W self
  = for_each (fun _ '(server_name, server_config) =>
                connect_server W server_name server_config)
             tt (mcpServers (config self)) self.
Proof.
  unfold connect_to_sse_servers, bind, get_self.
  destruct (for_each _ tt (mcpServers (config self)) self) as [[r self1] t1].
  reflexivity.
Qed.

End ConnectFacts.

(** C6, as stated, fails.  With provider ["a"] connected but unable to give
    its capability list, ["a"] is in the session map though its fetch
    failed (and not in the tool registry); and a provider entry without a
    ["type"] key makes [connect_to_sse_servers] raise. *)
Lemma session_map_is_not_the_catalog :
  (exists self tr,
      connect_to_sse_servers flaky_a
        (MCPClient_init (mcp_config (two_providers "cats?")))
      = (Return tt, self, tr) /\
      keys (sessions self) = ["a"; "b"] /\
      keys (settion_tools self) = ["b"] /\
      fetched_tools flaky_a ("a", sse "http://a") = None) /\
  connect_to_sse_servers scenario_A
    (MCPClient_init (mcp_config (untyped_provider "cats?")))
  = (Raise (KeyError "type"),
     MCPClient_init (mcp_config (untyped_provider "cats?")), []).
Proof.
  split; [|reflexivity].
  eexists _, _. repeat split.
Qed.

(** C6 (amended): for a provider list in which every entry declares a
    ["type"], the connect phase returns; a connection is attempted, in
    order, for each entry of type ["sse"] that gives a ["url"], whatever
    happened to the entries before it; each ["sse"] entry that does not end
    in the tool registry is logged once; the tool registry, from which the
    catalog is built, holds exactly the providers whose connect and
    capability-list fetch both succeeded; and the session map, like the map
    of exit stacks, holds exactly the providers whose connect succeeded,
    whether or not their capability list could be fetched. *)
Theorem best_effort_connect
  (W : World) (providers : dict (dict string))
  (Hkeys : NoDup (keys providers))
  (Htyped : Forall typed providers) :
  exists self tr,
    connect_to_sse_servers W (MCPClient_init {| mcpServers := providers |})
    = (Return tt, self, tr) /\
    settion_tools self = pick (fetched_tools W) providers /\
    sessions self = pick (connected_session W) providers /\
    exit_stacks self = sessions self /\
    attempts_of tr = pick endpoint providers /\
    length (errors_logged tr) + length (settion_tools self)
    = length (filter is_sse providers).
Proof.
  set (init := MCPClient_init {| mcpServers := providers |}).
  assert (Hfresh : fresh_for init providers).
  { intros k _. repeat split; intros []. }
  destruct (connect_loop_run W providers init Hkeys Htyped Hfresh)
    as (tr & Hrun & Hatt & Hlog).
  exists (grown W init providers), tr.
  rewrite connect_unfold. change (mcpServers (config init)) with providers.
  rewrite Hrun. now repeat split.
Qed.

Lemma best_effort_connect_witness :
  exists self tr,
    connect_to_sse_servers flaky_a
      (MCPClient_init {| mcpServers := [("a", sse "http://a"); ("b", sse "http://b")] |})
    = (Return tt, self, tr) /\
    settion_tools self = [("b", [search])] /\
    sessions self = [("a", provider_a); ("b", provider_b)].
Proof.
  destruct (best_effort_connect flaky_a
              [("a", sse "http://a"); ("b", sse "http://b")])
    as (self & tr & Hrun & Htools & Hsessions & _).
  - repeat constructor; cbn; intuition discriminate.
  - repeat constructor; discriminate.
  - exists self, tr. repeat split; assumption.
Defined.

(** ** Fuel

    [Pending] only stands for a conversation that is still going on: a run
    that ended keeps its outcome, its final client and its trace when it is
    given more fuel. *)

Section FuelFacts.

Variable W : World.

Lemma while_step fuel cancel tools st final_text message_ :
  while_tool_calls W (S fuel) cancel tools st final_text message_ =
  match tool_calls message_ with
  | [] => ret (String.concat "" final_text)
  | _ :: _ =>
      st' <- for_each (handle_tool_call W cancel) st (tool_calls message_) ;;
      response <- chat W (snd st') tools ;;
      while_tool_calls W fuel cancel tools st'
        (append_content final_text response) response
  end.
Proof. reflexivity. Qed.

Lemma while_fuel_mono cancel tools fuel :
  forall st final_text message_ self r self' tr,
    while_tool_calls W fuel cancel tools st final_text message_ self
    = (r, self', tr) ->
    r <> Pending ->
    while_tool_calls W (S fuel) cancel tools st final_text message_ self
    = (r, self', tr).
Proof.
  induction fuel as [|fuel IH]; intros st final_text message_ self r self' tr H Hr.
  - rewrite while_step. cbn [while_tool_calls] in H.
    destruct (tool_calls message_) as [|c calls]; [exact H|].
    injection H as <- _ _. now elim Hr.
  - rewrite while_step. rewrite while_step in H.
    destruct (tool_calls message_) as [|c calls]; [exact H|].
    unfold bind at 1. unfold bind at 1 in H.
    destruct (for_each _ st (c :: calls) self) as [[[st1|e| |] self1] t1];
      try exact H.
    unfold bind at 1. unfold bind at 1 in H.
    destruct (chat W (snd st1) tools self1) as [[[response|e| |] self2] t2];
      try exact H.
    destruct (while_tool_calls W fuel cancel tools st1 _ response self2)
      as [[r3 self3] t3] eqn:E.
    assert (Hr3 : r3 <> Pending).
    { intros ->. injection H as <- _ _. now elim Hr. }
    now rewrite (IH _ _ _ _ _ _ _ E Hr3).
Qed.

Lemma process_query_fuel_mono fuel cancel query_ self r self' tr :
  process_query W fuel cancel query_ self = (r, self', tr) ->
  r <> Pending ->
  process_query W (S fuel) cancel query_ self = (r, self', tr).
Proof.
  rewrite !process_query_run.
  destruct (is_empty (sessions self)); [auto|]. cbn zeta.
  destruct (chat_completions_create W _ _) as [response|e]; [|auto].
  destruct (while_tool_calls W fuel cancel _ _ _ response self)
    as [[r3 self3] t3] eqn:E.
  intros H Hr. injection H as <- <- <-.
  now rewrite (while_fuel_mono _ _ _ _ _ _ _ _ _ _ E Hr).
Qed.

Lemma request_body_fuel_mono fuel user_query self r self' tr :
  request_body W fuel user_query self = (r, self', tr) ->
  r <> Pending ->
  request_body W (S fuel) user_query self = (r, self', tr).
Proof.
  unfold request_body, bind.
  destruct (connect_to_sse_servers W self) as [[[[]|e| |] self1] t1]; auto.
  unfold except_timeout, wait_for.
  destruct (process_query W fuel _ (query user_query) self1)
    as [[r2 self2] t2] eqn:E.
  intros H Hr.
  assert (Hr2 : r2 <> Pending).
  { intros ->. injection H as <- _ _. now elim Hr. }
  now rewrite (process_query_fuel_mono _ _ _ _ _ _ _ E Hr2).
Qed.

(** A request that ended with some fuel ends the same way with more. *)
Lemma handle_query_fuel_mono fuel user_query r final tr :
  handle_query W fuel user_query = (r, final, tr) ->
  r <> Pending ->
  handle_query W (S fuel) user_query = (r, final, tr).
Proof.
  rewrite !handle_query_unfold, !guarded_body_unfold.
  destruct (request_body W fuel user_query _) as [[r1 self1] t1] eqn:E.
  intros H Hr.
  assert (Hr1 : r1 <> Pending).
  { intros ->. injection H as <- _ _. now elim Hr. }
  now rewrite (request_body_fuel_mono _ _ _ _ _ _ E Hr1).
Qed.

Lemma batch_not_pending cancel calls :
  forall st self self' tr,
    for_each (handle_tool_call W cancel) st calls self <> (Pending, self', tr).
Proof.
  induction calls as [|tool_call calls IH]; intros [k messages] self self' tr;
    [discriminate|].
  cbn [for_each]. unfold bind. rewrite handle_tool_call_run.
  destruct (json_loads W _); [|discriminate].
  destruct (re_match _) as [[server_index tool_name]|]; [|discriminate].
  destruct (nth_error _ _); [|discriminate].
  destruct (get _ _); [|discriminate].
  cbn zeta. destruct (cancel k); [discriminate|].
  destruct (call_tool W k _ _ _); [|discriminate].
  destruct (for_each _ _ calls self) as [[r2 self2] t2] eqn:E2.
  destruct r2; try discriminate.
  now elim (IH _ _ _ _ E2).
Qed.

(** A request is only left pending by a model that asked for tools in each
    of its responses, as many times as there was fuel. *)
Lemma while_pending cancel tools fuel :
  forall st final_text message_ self self' tr,
    while_tool_calls W fuel cancel tools st final_text message_ self
    = (Pending, self', tr) ->
    length (chats_of tr) = fuel /\ tool_calls message_ <> [].
Proof.
  induction fuel as [|fuel IH]; intros st final_text message_ self self' tr H.
  - cbn [while_tool_calls] in H.
    destruct (tool_calls message_) as [|c calls]; [discriminate|].
    injection H as _ <-. now split.
  - rewrite while_step in H.
    destruct (tool_calls message_) as [|c calls] eqn:Ecalls; [discriminate|].
    split; [|discriminate].
    unfold bind at 1 in H.
    pose proof (batch_no_chat W cancel (c :: calls) st self) as Hnone.
    destruct (for_each _ st (c :: calls) self) as [[[st1|e| |] self1] t1] eqn:Erun;
      try discriminate.
    + unfold bind at 1 in H. rewrite chat_run in H.
      destruct (chat_completions_create W (snd st1) tools) as [response|e];
        [|discriminate].
      destruct (while_tool_calls W fuel cancel tools st1 _ response self1)
        as [[r3 self3] t3] eqn:E.
      injection H as -> _ <-.
      destruct (IH _ _ _ _ _ _ E) as [Hlen _].
      cbn [snd] in Hnone. rewrite chats_of_app, Hnone.
      change (chats_of (EvChat (snd st1) tools :: t3))
        with ((snd st1, tools) :: chats_of t3).
      simpl. f_equal. exact Hlen.
    + now elim (batch_not_pending cancel (c :: calls) _ _ _ _ Erun).
Qed.

End FuelFacts.

(** ** The final output *)

Section OutputFacts.

Variable W : World.

Lemma while_output cancel tools fuel :
  forall st final_text message_ self out self' tr,
    while_tool_calls W fuel cancel tools st final_text message_ self
    = (Return out, self', tr) ->
    exists later,
      responses_of W tr = map Ok later /\
      out = String.concat "" (fold_left append_content later final_text) /\
      tool_calls (last later message_) = [].
Proof.
  induction fuel as [|fuel IH]; intros st final_text message_ self out self' tr H.
  - cbn [while_tool_calls] in H.
    destruct (tool_calls message_) as [|c calls] eqn:E; [|discriminate].
    injection H as <- _ <-. now exists [].
  - rewrite while_step in H.
    destruct (tool_calls message_) as [|c calls] eqn:Ecalls.
    { injection H as <- _ <-. now exists []. }
    unfold bind at 1 in H.
    pose proof (batch_no_chat W cancel (c :: calls) st self) as Hnone.
    destruct (for_each _ st (c :: calls) self) as [[[st1|e| |] self1] t1];
      try discriminate.
    unfold bind at 1 in H. rewrite chat_run in H.
    destruct (chat_completions_create W (snd st1) tools) as [response|e] eqn:Echat;
      [|discriminate].
    destruct (while_tool_calls W fuel cancel tools st1 _ response self1)
      as [[r3 self3] t3] eqn:E.
    injection H as -> _ <-.
    destruct (IH _ _ _ _ _ _ _ E) as (later & Hresp & Hout & Hlast).
    exists (response :: later). cbn [snd] in Hnone. repeat split.
    + unfold responses_of in *. rewrite chats_of_app, Hnone.
      change (chats_of ([EvChat (snd st1) tools] ++ t3))
        with ((snd st1, tools) :: chats_of t3).
      simpl. rewrite Echat. f_equal. exact Hresp.
    + exact Hout.
    + now rewrite last_cons.
Qed.

(** What a request that succeeds replies: the texts of the responses the
    model gave after the first one, in order; the loop ended on the first
    response without tool calls. *)
Lemma process_query_output fuel cancel query_ self out self' tr :
  process_query W fuel cancel query_ self = (Return out, self', tr) ->
  exists first later,
    responses_of W tr = Ok first :: map Ok later /\
    out = String.concat "" (fold_left append_content later []) /\
    tool_calls (last later first) = [].
Proof.
  rewrite process_query_run.
  destruct (is_empty (sessions self)); [discriminate|]. cbn zeta.
  destruct (chat_completions_create W _ _) as [first|e] eqn:Echat; [|discriminate].
  destruct (while_tool_calls W fuel cancel _ _ _ first self) as [[r self2] t2] eqn:E.
  intros H. injection H as -> _ <-.
  destruct (while_output _ _ _ _ _ _ _ _ _ _ E) as (later & Hresp & Hout & Hlast).
  exists first, later. repeat split; try assumption.
  unfold responses_of in *.
  change (chats_of (EvChat [UserMessage query_] (build_catalog (settion_tools self))
                      :: t2))
    with (([UserMessage query_], build_catalog (settion_tools self)) :: chats_of t2).
  simpl. rewrite Echat. f_equal. exact Hresp.
Qed.

End OutputFacts.

(** Scenario A of the specification: the final output is the text of the
    response that follows the tool call. *)
Example scenario_A_output :
  fst (fst (handle_query scenario_A 1 (one_provider "cats?")))
  = Return "Found 3 results.".
Proof. reflexivity. Qed.

(** * Further properties of the code *)

(** ** The identifiers that decode *)



Lemma strip_prefix_inv pre s r :
  strip_prefix pre s = Some r -> s = (pre ++ r)%string.
Proof.
  revert s. induction pre as [|a pre IH]; intros s H; simpl in *.
  - now injection H as ->.
  - destruct s as [|b s]; [discriminate|].
    destruct (Ascii.eqb_spec a b) as [->|]; [|discriminate].
    now rewrite (IH _ H).
Qed.

Lemma span_inv p s a b :
  span p s = (a, b) ->
  s = (a ++ b)%string /\ string_forall p a = true /\
  (b = "" \/ exists c r, b = String c r /\ p c = false).
Proof.
  revert a b. induction s as [|c s IH]; intros a b H; simpl in H.
  - injection H as <- <-. repeat split. now left.
  - destruct (p c) eqn:Hc.
    + destruct (span p s) as [a' b'] eqn:E. injection H as <- <-.
      destruct (IH _ _ eq_refl) as (-> & Ha & Hb).
      repeat split; [simpl; now rewrite Hc|exact Hb].
    + injection H as <- <-. repeat split. right. now exists c, s.
Qed.

Lemma is_newline_line_feed c : is_newline c = true -> c = line_feed.
Proof.
  unfold is_newline. intros H. apply N.eqb_eq in H.
  rewrite <- (ascii_N_embedding c), H. reflexivity.
Qed.

Lemma re_match_inv flat digits tool_name :
  re_match flat = Some (digits, tool_name) -> accepted_as flat digits tool_name.
Proof.
  unfold re_match. intros H.
  destruct (strip_prefix "server_" flat) as [rest|] eqn:Epre; [|discriminate].
  apply strip_prefix_inv in Epre. subst flat.
  destruct (span is_digit rest) as [ds rest1] eqn:Eds.
  destruct (span_inv _ _ _ _ Eds) as (-> & Hds & _).
  destruct ds as [|d ds]; [discriminate|].
  destruct rest1 as [|u rest2]; [discriminate|].
  destruct (Ascii.eqb_spec u "_"%char) as [->|]; [|discriminate].
  destruct (span not_newline rest2) as [nm rest3] eqn:Enm.
  destruct (span_inv _ _ _ _ Enm) as (-> & Hnm & Hrest).
  destruct nm as [|c nm]; [discriminate|].
  injection H as <- <-.
  exists rest3. repeat split.
  - discriminate.
  - exact Hds.
  - unfold plain_name. now rewrite Hnm.
  - destruct Hrest as [->|(c' & r & -> & Hc')]; [now left|right].
    exists r. f_equal. apply is_newline_line_feed.
    unfold not_newline in Hc'. now destruct (is_newline c').
Qed.






(** ** The catalog *)

Lemma mangle_inj i j n m : mangle i n = mangle j m -> i = j /\ n = m.
Proof.
  unfold mangle. intros H. simpl in H.
  repeat match type of H with String _ _ = String _ _ => injection H as H end.
  assert (Hs : span is_digit (str_int i ++ String "_"%char n)%string
               = span is_digit (str_int j ++ String "_"%char m)%string)
    by (f_equal; exact H).
  rewrite !span_app_stop in Hs by (try apply str_int_digits; reflexivity).
  injection Hs as Hij Hnm. split; [now apply str_int_inj|assumption].
Qed.

(** X3: the encoding of the flat namespace is injective, whatever the
    local names: two flat identifiers built by the catalog are equal only
    if they come from the same provider ordinal and the same local tool
    name. *)
Theorem mangle_injective
  (i j : N) (n m : string) (Hsame : mangle i n = mangle j m) :
  i = j /\ n = m.
Proof. now apply mangle_inj. Qed.

Lemma mangle_injective_witness : 3%N = 3%N /\ "search" = "search".
Proof. exact (mangle_injective 3 3 "search" "search" eq_refl). Defined.

Lemma NoDup_map_inj {A B} (f : A -> B) (l : list A) :
  (forall a b, f a = f b -> a = b) -> NoDup l -> NoDup (map f l).
Proof.
  intros Hinj. induction 1 as [|x l Hx _ IH]; cbn; constructor; [|exact IH].
  intros Hin. apply in_map_iff in Hin as (y & Hy & Hin).
  apply Hinj in Hy. now subst y.
Qed.

Lemma catalog_names_from start (d : dict (list Tool)) x :
  In x (map fn_name
          (flat_map (fun '(server_idx, (_, tools)) => map (tool_spec server_idx) tools)
                    (enumerate_from start d))) ->
  exists j n, x = mangle j n /\ (start <= j)%N.
Proof.
  revert start. induction d as [|[server_name tools] d IH]; intros start H;
    [contradiction|].
  cbn [enumerate_from flat_map] in H. rewrite map_app in H.
  apply in_app_or in H as [H|H].
  - rewrite map_map in H. apply in_map_iff in H as (tool & <- & _).
    exists start, (name tool). split; [reflexivity|lia].
  - destruct (IH _ H) as (j & n & -> & Hj). exists j, n. split; [reflexivity|lia].
Qed.

Lemma catalog_nodup_from (d : dict (list Tool)) :
  Forall (fun entry => NoDup (map name (snd entry))) d ->
  forall start,
    NoDup (map fn_name
             (flat_map (fun '(server_idx, (_, tools)) =>
                          map (tool_spec server_idx) tools)
                       (enumerate_from start d))).
Proof.
  induction 1 as [|[server_name tools] d Hnames _ IH]; intros start;
    [constructor|].
  cbn [enumerate_from flat_map]. rewrite map_app. apply NoDup_app.
  - rewrite map_map. cbn [snd] in Hnames.
    change (fun x => fn_name (tool_spec start x))
      with (fun x => mangle start (name x)).
    rewrite <- (map_map name (mangle start)).
    apply NoDup_map_inj; [|exact Hnames].
    intros a b Hab. now apply mangle_inj in Hab.
  - apply IH.
  - intros x Hx Hx'. rewrite map_map in Hx.
    apply in_map_iff in Hx as (tool & <- & _).
    destruct (catalog_names_from _ _ _ Hx') as (j & n & Heq & Hj).
    cbn in Heq. apply mangle_inj in Heq as [-> _]. lia.
Qed.

(** X4: when no provider lists two tools under the same name, the flat
    identifiers of the catalog handed to the model are pairwise distinct,
    even if tools of different providers share their local names. *)
Theorem catalog_names_distinct
  (tools_by_server : dict (list Tool))
  (Hlocal : Forall (fun entry => NoDup (map name (snd entry))) tools_by_server) :
  NoDup (map fn_name (build_catalog tools_by_server)).
Proof. unfold build_catalog. now apply catalog_nodup_from. Qed.

Lemma catalog_names_distinct_witness :
  NoDup (map fn_name (build_catalog [("a", [search]); ("b", [search])])).
Proof.
  apply catalog_names_distinct.
  repeat constructor; cbn; intuition.
Defined.

(** ** Routing *)


Lemma get_set_same {V} (d : dict V) k v : get (set d k v) k = Some v.
Proof.
  induction d as [|[k' v'] d IH]; simpl.
  - now rewrite String.eqb_refl.
  - destruct (String.eqb_spec k' k) as [->|Hne]; simpl.
    + now rewrite String.eqb_refl.
    + destruct (String.eqb_spec k' k); [contradiction|exact IH].
Qed.

Lemma get_set_other {V} (d : dict V) k k' v :
  k' <> k -> get (set d k v) k' = get d k'.
Proof.
  intros Hne. induction d as [|[k0 v0] d IH]; simpl.
  - destruct (String.eqb_spec k k'); [congruence|reflexivity].
  - destruct (String.eqb_spec k0 k) as [->|Hne0]; simpl.
    + destruct (String.eqb_spec k k'); [congruence|reflexivity].
    + destruct (String.eqb_spec k0 k'); [reflexivity|exact IH].
Qed.

Section RoutingFacts.

Variable W : World.

Lemma registered_routable self session :
  routable self -> routable (registered self session).
Proof.
  intros H k Hk. unfold registered in *. cbn [sessions settion_tools] in *.
  destruct (string_dec k (peer session)) as [->|Hne].
  - exists session. split; [apply get_set_same|reflexivity].
  - rewrite (get_set_other _ _ _ _ Hne). now apply H.
Qed.

Lemma listed_routable self session tools :
  routable self ->
  routable (listed (registered self session) (peer session) tools).
Proof.
  intros H k Hk. unfold listed, registered in *. cbn [sessions settion_tools] in *.
  destruct (string_dec k (peer session)) as [->|Hne].
  - exists session. split; [apply get_set_same|reflexivity].
  - rewrite (get_set_other _ _ _ _ Hne). apply H.
    rewrite keys_set in Hk.
    destruct (in_dec string_dec (peer session) (keys (settion_tools self)));
      [exact Hk|].
    apply in_app_or in Hk as [Hk|[Hk|[]]]; [exact Hk|congruence].
Qed.

Lemma connect_server_routable server_name server_config :
  keeps routable (connect_server W server_name server_config).
Proof.
  intros self HI. unfold connect_server, subscript.
  destruct (get server_config "type") as [type_|]; [|exact HI].
  unfold bind at 1. cbn [ret].
  destruct (String.eqb type_ "sse"); [|exact HI].
  unfold try_except. rewrite connect_attempt_run.
  destruct (get server_config "url") as [u|]; [|exact HI].
  cbn zeta.
  destruct (open_streams W _) as [[]|e]; [|exact HI].
  destruct (open_session W _) as [[]|e]; [|exact HI].
  destruct (initialize W _) as [[]|e]; [|exact HI].
  destruct (list_tools W _) as [tools|e]; cbn.
  - apply (listed_routable self {| peer := server_name; url := u |} tools HI).
  - apply (registered_routable self {| peer := server_name; url := u |} HI).
Qed.

Lemma connect_routable : keeps routable (connect_to_sse_servers W).
Proof.
  unfold connect_to_sse_servers.
  apply keeps_bind; [apply keeps_reads_only, reads_only_get_self|].
  intros self. apply keeps_for_each. intros [] [server_name server_config].
  apply connect_server_routable.
Qed.

End RoutingFacts.

(** X6: a tool call is always routed to a live session of the right
    provider.  In the registry the connect phase leaves, whatever the
    providers did, every name that resolves, resolves to a provider key
    under which a session is registered, and that session is the one
    opened for this provider: the lookup of the session (source line 145)
    cannot raise [KeyError]. *)
Theorem resolved_provider_has_session
  (W : World) (cfg : MCPConfig) (flat server_name tool_name : string)
  (tr : list event) :
  let registry := snd (fst (connect_to_sse_servers W (MCPClient_init cfg))) in
  resolve (settion_tools registry) flat registry
  = (Return (server_name, tool_name), registry, tr) ->
  exists session,
    get (sessions registry) server_name = Some session /\
    peer session = server_name.
Proof.
  intros registry Hres.
  assert (Hok : routable registry).
  { apply connect_routable. intros k []. }
  apply Hok. unfold resolve in Hres.
  destruct (re_match flat) as [[digits nm]|]; [|discriminate].
  unfold bind, index in Hres.
  destruct (nth_error _ _) as [key|] eqn:E; [|discriminate].
  cbn in Hres. injection Hres as <- _ _.
  eapply nth_error_In. exact E.
Qed.

Lemma resolved_provider_has_session_witness :
  exists session,
    get (sessions (snd (fst (connect_to_sse_servers flaky_a
                               (MCPClient_init (mcp_config (two_providers "cats?")))))))
        "b" = Some session /\
    peer session = "b".
Proof.
  exact (resolved_provider_has_session flaky_a (mcp_config (two_providers "cats?"))
           "server_0_search" "b" "search" [] eq_refl).
Defined.

(** ** The connect phase and the configuration *)

Section ConfigFacts.

Variable W : World.

Lemma connect_server_typed server_name server_config self :
  typed (server_name, server_config) ->
  fst (fst (connect_server W server_name server_config self)) = Return tt.
Proof.
  unfold typed, connect_server, subscript. cbn [snd].
  destruct (get server_config "type") as [type_|]; [intros _|now intros []].
  unfold bind at 1. cbn [ret].
  destruct (String.eqb type_ "sse"); [|reflexivity].
  unfold try_except, logger_error. rewrite connect_attempt_run.
  destruct (get server_config "url") as [u|]; [|reflexivity].
  cbn zeta.
  destruct (open_streams W _) as [[]|e]; [|reflexivity].
  destruct (open_session W _) as [[]|e]; [|reflexivity].
  destruct (initialize W _) as [[]|e]; [|reflexivity].
  destruct (list_tools W _) as [tools|e]; reflexivity.
Qed.

Lemma connect_server_untyped server_name server_config self :
  get server_config "type" = None ->
  connect_server W server_name server_config self
  = (Raise (KeyError "type"), self, []).
Proof.
  intros H. unfold connect_server, subscript. now rewrite H.
Qed.

Lemma connect_loop_outcome providers :
  forall self,
    fst (fst (for_each (fun _ '(server_name, server_config) =>
                          connect_server W server_name server_config)
                       tt providers self))
    = if forallb (fun entry => match get (snd entry) "type" with
                               | Some _ => true
                               | None => false
                               end) providers
      then Return tt else Raise (KeyError "type").
Proof.
  induction providers as [|[server_name server_config] providers IH]; intros self;
    [reflexivity|].
  cbn [for_each forallb snd]. unfold bind.
  destruct (get server_config "type") as [type_|] eqn:Etype.
  - pose proof (connect_server_typed server_name server_config self) as H.
    unfold typed in H. cbn [snd] in H. rewrite Etype in H.
    specialize (H ltac:(discriminate)).
    destruct (connect_server W server_name server_config self) as [[r self1] t1].
    cbn in H. subst r. specialize (IH self1).
    destruct (for_each _ tt providers self1) as [[r2 self2] t2]. exact IH.
  - now rewrite (connect_server_untyped _ _ _ Etype).
Qed.

(** The connect loop does not read the configuration of the client. *)
Lemma connect_server_same_registry server_name server_config self self' :
  same_registry self self' ->
  let '(r, s, t) := connect_server W server_name server_config self in
  let '(r', s', t') := connect_server W server_name server_config self' in
  r = r' /\ t = t' /\ same_registry s s'.
Proof.
  intros (Hs & Ht & He). unfold connect_server, subscript.
  destruct (get server_config "type") as [type_|]; [|now repeat split].
  unfold bind at 1. unfold bind at 1. cbn [ret].
  destruct (String.eqb type_ "sse"); [|now repeat split].
  unfold try_except, logger_error. rewrite !connect_attempt_run.
  destruct (get server_config "url") as [u|]; [|now repeat split].
  cbn zeta.
  destruct (open_streams W _) as [[]|e]; [|now repeat split].
  destruct (open_session W _) as [[]|e]; [|now repeat split].
  destruct (initialize W _) as [[]|e]; [|now repeat split].
  destruct (list_tools W _) as [tools|e]; cbn; unfold same_registry; cbn;
    rewrite Hs, Ht, He; now repeat split.
Qed.

Lemma connect_loop_prefix good :
  forall server_name server_config rest self self',
    Forall typed good ->
    get server_config "type" = None ->
    same_registry self self' ->
    let '(r, s, t) :=
      for_each (fun _ '(n, c) => connect_server W n c) tt
               (good ++ (server_name, server_config) :: rest) self in
    let '(_, s', t') :=
      for_each (fun _ '(n, c) => connect_server W n c) tt good self' in
    r = Raise (KeyError "type") /\ t = t' /\ same_registry s s'.
Proof.
  induction good as [|[n c] good IH];
    intros server_name server_config rest self self' Hgood Hbad Hsame.
  - cbn [List.app for_each]. unfold bind.
    rewrite (connect_server_untyped _ _ _ Hbad). cbn.
    split; [reflexivity|split; [reflexivity|exact Hsame]].
  - inversion Hgood as [|? ? Hty Hgood']; subst.
    cbn [List.app for_each]. unfold bind.
    pose proof (connect_server_same_registry n c self self' Hsame) as H1.
    pose proof (connect_server_typed n c self Hty) as Hr.
    destruct (connect_server W n c self) as [[r1 s1] t1].
    destruct (connect_server W n c self') as [[r1' s1'] t1'].
    destruct H1 as (<- & <- & Hsame1). cbn in Hr. subst r1.
    specialize (IH server_name server_config rest s1 s1' Hgood' Hbad Hsame1).
    destruct (for_each _ tt (good ++ _) s1) as [[r2 s2] t2].
    destruct (for_each _ tt good s1') as [[r2' s2'] t2'].
    destruct IH as (-> & -> & Hsame2).
    split; [reflexivity|split; [reflexivity|exact Hsame2]].
Qed.

End ConfigFacts.

(** X7: what the connect phase can raise.  It returns when every provider
    entry declares a ["type"], whatever the providers do, and raises
    [KeyError('type')] otherwise; it raises nothing else and never stays
    cancelled or pending. *)
Theorem connect_outcome (W : World) (self : MCPClient) :
  fst (fst (connect_to_sse_servers W self))
  = if forallb (fun entry => match get (snd entry) "type" with
                             | Some _ => true
                             | None => false
                             end) (mcpServers (config self))
    then Return tt else Raise (KeyError "type").
Proof. rewrite connect_unfold. apply connect_loop_outcome. Qed.

(** X8: an entry without a ["type"] stops the connect phase where it
    stands.  The entries before it are gone through exactly as if the list
    ended there -- same effects, same sessions, tool registry and exit
    stacks -- and the entries after it are not attempted at all. *)
Theorem untyped_entry_stops_connect
  (W : World) (good rest : dict (dict string))
  (server_name : string) (server_config : dict string)
  (Hgood : Forall typed good)
  (Hbad : get server_config "type" = None) :
  let whole :=
    connect_to_sse_servers W
      (MCPClient_init {| mcpServers := good ++ (server_name, server_config) :: rest |}) in
  let part := connect_to_sse_servers W (MCPClient_init {| mcpServers := good |}) in
  fst (fst whole) = Raise (KeyError "type") /\
  snd whole = snd part /\
  same_registry (snd (fst whole)) (snd (fst part)).
Proof.
  cbn zeta. rewrite !connect_unfold. cbn [config mcpServers MCPClient_init].
  pose proof (connect_loop_prefix W good server_name server_config rest
                (MCPClient_init {| mcpServers := good ++ (server_name, server_config) :: rest |})
                (MCPClient_init {| mcpServers := good |})
                Hgood Hbad ltac:(now repeat split)) as H.
  cbn [MCPClient_init] in H.
  destruct (for_each _ tt (good ++ _) _) as [[r s] t].
  destruct (for_each _ tt good _) as [[r' s'] t'].
  exact H.
Qed.

Lemma untyped_entry_stops_connect_witness :
  attempts_of
    (snd (connect_to_sse_servers scenario_A
            (MCPClient_init
               {| mcpServers := [("a", sse "http://a")]
                                  ++ ("x", [("url", "http://x")])
                                  :: [("b", sse "http://b")] |})))
  = [provider_a].
Proof.
  destruct (untyped_entry_stops_connect scenario_A [("a", sse "http://a")]
              [("b", sse "http://b")] "x" [("url", "http://x")])
    as (_ & Htrace & _).
  - repeat constructor. discriminate.
  - reflexivity.
  - exact (f_equal attempts_of Htrace).
Defined.

(** ** Cleanup and what follows it *)


(** ** A backend that fails *)

(** X10: the two calls of the model do not fail alike.  When the first
    call raises, [process_query] logs the error and raises an HTTP-style
    exception of status 500 whose detail is the error text after a fixed
    prefix.  When the call that follows a batch raises, the exception
    leaves [process_query] as it is, neither logged there nor wrapped. *)
Theorem backend_failure_reporting
  (W : World) (fuel : nat) (cancel : nat -> bool) (self : MCPClient) (e : exn) :
  (forall query_,
      is_empty (sessions self) = false ->
      chat_completions_create W [UserMessage query_]
        (build_catalog (settion_tools self)) = Err e ->
      process_query W fuel cancel query_ self
      = (Raise (HTTPException 500 ("OpenAI API调用失败: " ++ str_exn e)), self,
         [EvChat [UserMessage query_] (build_catalog (settion_tools self));
          EvLogError ("OpenAI API调用失败: " ++ str_exn e)])) /\
  (forall tools k messages final_text message_ outs,
      tool_calls message_ <> [] ->
      batch_goes_through W self cancel k (tool_calls message_) outs ->
      let batch := combine (tool_calls message_) outs in
      chat_completions_create W (batch_transcript W messages batch) tools = Err e ->
      while_tool_calls W (S fuel) cancel tools (k, messages) final_text message_ self
      = (Raise e, self,
         batch_script W messages batch
           ++ [EvChat (batch_transcript W messages batch) tools])).
Proof.
  split.
  - intros query_ Hsessions Hfail.
    rewrite process_query_run, Hsessions. cbn zeta. now rewrite Hfail.
  - intros tools k messages final_text message_ outs Hbatch Hgo batch Hfail.
    rewrite while_step.
    destruct (tool_calls message_) as [|c calls] eqn:E; [now elim Hbatch|].
    unfold bind at 1.
    rewrite (batch_run W cancel (c :: calls) outs k messages self Hgo).
    fold batch. unfold bind at 1. rewrite chat_run. cbn [snd].
    now rewrite Hfail.
Qed.

Lemma backend_failure_reporting_witness :
  fst (fst (process_query backend_down 3 (fun _ => false) "cats?" (connected_a "cats?")))
  = Raise (HTTPException 500 "OpenAI API调用失败: no route") /\
  fst (fst (while_tool_calls backend_drops 3 (fun _ => false) catalog_a
              (0, [UserMessage "cats?"]) []
              {| content := None; tool_calls := [call_search "server_0_search"] |}
              (connected_a "cats?")))
  = Raise (Error "no route").
Proof.
  split.
  - destruct (backend_failure_reporting backend_down 3 (fun _ => false)
                (connected_a "cats?") (Error "no route")) as [H _].
    rewrite (H "cats?" eq_refl eq_refl). reflexivity.
  - destruct (backend_failure_reporting backend_drops 2 (fun _ => false)
                (connected_a "cats?") (Error "no route")) as [_ H].
    rewrite (H catalog_a 0 [UserMessage "cats?"] []
               {| content := None; tool_calls := [call_search "server_0_search"] |}
               [(provider_a, "search", JObject [], {| str_content := "3 results" |})]).
    + reflexivity.
    + discriminate.
    + repeat split.
    + reflexivity.
Defined.

(** ** A batch that fails half way *)

Section PartialBatch.

Variable W : World.

Lemma handle_tool_call_stuck cancel k messages tool_call self :
  dispatch W self cancel k tool_call = None ->
  exists r tail,
    handle_tool_call W cancel (k, messages) tool_call self = (r, self, tail) /\
    (forall st, r <> Return st) /\
    length (dispatched_of tail) <= 1 /\
    snapshots tail = [].
Proof.
  rewrite handle_tool_call_run. unfold dispatch, parse_flat.
  destruct (json_loads W _) as [tool_args|e];
    [|intros _; eexists _, _; repeat split; [discriminate|cbn; lia]].
  destruct (re_match _) as [[server_index tool_name]|];
    [|intros _; eexists _, _; repeat split; [discriminate|cbn; lia]].
  destruct (nth_error _ _) as [server_name|];
    [|intros _; eexists _, _; repeat split; [discriminate|cbn; lia]].
  destruct (get _ _) as [session|];
    [|intros _; eexists _, _; repeat split; [discriminate|cbn; lia]].
  cbn zeta. destruct (cancel k);
    [intros _; eexists _, _; repeat split; [discriminate|cbn; lia]|].
  destruct (call_tool W k session tool_name tool_args) as [result_|e];
    [discriminate|].
  intros _. eexists _, _. repeat split; [discriminate|cbn; lia].
Qed.

End PartialBatch.

(** X11: a batch stops at its first call that does not go through.  The
    calls before it have been dispatched and recorded in the transcript, in
    order; the failing call is dispatched at most once and adds nothing to
    the transcript; the calls after it are never dispatched; and the batch
    does not return, so the model is not called again. *)
Theorem batch_stops_at_first_failure
  (W : World) (cancel : nat -> bool) (self : MCPClient)
  (good : list ToolCall) (bad : ToolCall) (rest : list ToolCall)
  (outs : list (ClientSession * string * json * CallToolResult))
  (k : nat) (messages : list message)
  (Hgood : batch_goes_through W self cancel k good outs)
  (Hbad : dispatch W self cancel (k + length good) bad = None) :
  exists r tail,
    for_each (handle_tool_call W cancel) (k, messages) (good ++ bad :: rest) self
    = (r, self, batch_script W messages (combine good outs) ++ tail) /\
    (forall st, r <> Return st) /\
    length (dispatched_of tail) <= 1 /\
    snapshots tail = [].
Proof.
  revert outs k messages Hgood Hbad.
  induction good as [|g good IH]; intros [|out outs] k messages Hgood Hbad;
    try contradiction.
  - rewrite Nat.add_0_r in Hbad.
    destruct (handle_tool_call_stuck W cancel k messages bad self Hbad)
      as (r & tail & Hrun & Hr & Hlen & Hsnap).
    cbn [List.app for_each combine batch_script]. unfold bind. rewrite Hrun.
    destruct r as [st| e | |].
    + now elim (Hr st).
    + exists (Raise e), tail. repeat split; [discriminate|assumption..].
    + exists Cancelled, tail. repeat split; [discriminate|assumption..].
    + exists Pending, tail. repeat split; [discriminate|assumption..].
  - destruct Hgood as [Hfirst Hrest].
    cbn [length] in Hbad. rewrite Nat.add_succ_r in Hbad.
    destruct (IH outs (S k)
                ((messages ++ [assistant_entry W g out]) ++ [tool_entry g out])
                Hrest Hbad) as (r & tail & Hrun & Hr & Hlen & Hsnap).
    exists r, tail.
    cbn [List.app for_each combine batch_script]. unfold bind.
    rewrite (handle_tool_call_dispatch W cancel k messages g self out Hfirst).
    rewrite Hrun. repeat split; assumption.
Qed.

Lemma batch_stops_at_first_failure_witness :
  exists r tail,
    for_each (handle_tool_call scenario_batch (fun _ => false))
      (0, [UserMessage "cats?"])
      ([call_with "call_1" "server_0_search"]
         ++ call_with "call_2" "server_9_search"
         :: [call_with "call_3" "server_1_search"])
      (connected_ab "cats?")
    = (r, connected_ab "cats?",
       batch_script scenario_batch [UserMessage "cats?"]
         (combine [call_with "call_1" "server_0_search"]
                  [(provider_a, "search", JObject [], {| str_content := "a" |})])
         ++ tail) /\
    length (dispatched_of tail) <= 1.
Proof.
  destruct (batch_stops_at_first_failure scenario_batch (fun _ => false)
              (connected_ab "cats?")
              [call_with "call_1" "server_0_search"]
              (call_with "call_2" "server_9_search")
              [call_with "call_3" "server_1_search"]
              [(provider_a, "search", JObject [], {| str_content := "a" |})]
              0 [UserMessage "cats?"])
    as (r & tail & Hrun & _ & Hlen & _).
  - repeat split.
  - reflexivity.
  - exists r, tail. split; assumption.
Defined.

(** ** The transcripts handed to the model *)

Section ChatFacts.

Variable W : World.

Lemma batch_goes_through_length self cancel calls :
  forall k outs,
    batch_goes_through W self cancel k calls outs -> length outs = length calls.
Proof.
  induction calls as [|c calls IH]; intros k [|out outs] H; try contradiction;
    [reflexivity|].
  destruct H as [_ H]. cbn. f_equal. exact (IH _ _ H).
Qed.

Lemma batch_transcript_flat batch :
  forall messages,
    batch_transcript W messages batch
    = messages ++ flat_map (fun item => entry_pair (recorded W item)) batch.
Proof.
  induction batch as [|[tool_call [[[session tool_name] tool_args] result_]] batch IH];
    intros messages; cbn [batch_transcript flat_map].
  - now rewrite List.app_nil_r.
  - rewrite IH, <- !app_assoc. reflexivity.
Qed.

Lemma batch_script_dispatched batch :
  forall messages,
    length (dispatched_of (batch_script W messages batch)) = length batch.
Proof.
  induction batch as [|[tool_call [[[session tool_name] tool_args] result_]] batch IH];
    intros messages; [reflexivity|].
  cbn. f_equal. apply IH.
Qed.

Lemma batch_transcript_length batch messages :
  length (batch_transcript W messages batch) = length messages + 2 * length batch.
Proof.
  rewrite batch_transcript_flat, length_app. f_equal.
  induction batch as [|item batch IH]; [reflexivity|].
  cbn [flat_map]. rewrite length_app, IH. cbn. lia.
Qed.

(** A batch that returns, in full. *)
Lemma batch_return_run cancel calls k messages self st' self' tr :
  for_each (handle_tool_call W cancel) (k, messages) calls self
  = (Return st', self', tr) ->
  exists outs,
    batch_goes_through W self cancel k calls outs /\
    length (combine calls outs) = length calls /\
    st' = (k + length calls, batch_transcript W messages (combine calls outs)) /\
    self' = self /\
    tr = batch_script W messages (combine calls outs).
Proof.
  intros H. destruct (batch_return W cancel calls _ _ _ _ _ _ H) as [outs Hgo].
  exists outs. rewrite (batch_run W cancel calls outs k messages self Hgo) in H.
  injection H as <- <- <-.
  repeat split; try assumption.
  rewrite length_combine, (batch_goes_through_length _ _ _ _ _ Hgo). lia.
Qed.

Lemma chats_counted_no_chat k tr : chats_of tr = [] -> chats_counted k tr.
Proof.
  intros Hnone pre m t post ->.
  rewrite chats_of_app in Hnone. apply app_eq_nil in Hnone as [_ H].
  discriminate.
Qed.

Lemma chats_counted_app k t1 t2 :
  chats_counted k t1 ->
  chats_counted (k + length (dispatched_of t1)) t2 ->
  chats_counted k (t1 ++ t2).
Proof.
  intros H1 H2 pre m t post Heq.
  apply split_app in Heq as [(post1 & -> & ->)|(pre2 & -> & ->)].
  - exact (H1 _ _ _ _ eq_refl).
  - rewrite dispatched_of_app, length_app, Nat.add_assoc.
    exact (H2 _ _ _ _ eq_refl).
Qed.

Lemma chats_counted_chat k messages tools tr :
  length messages = 1 + 2 * k ->
  chats_counted k tr ->
  chats_counted k (EvChat messages tools :: tr).
Proof.
  intros Hlen H [|ev pre] m t post Heq; cbn in Heq.
  - injection Heq as <- _ _. cbn. rewrite Nat.add_0_r. exact Hlen.
  - injection Heq as <- Heq. cbn [dispatched_of flat_map List.app].
    exact (H _ _ _ _ Heq).
Qed.

Lemma while_chats_counted cancel tools fuel :
  forall k messages final_text message_ self,
    length messages = 1 + 2 * k ->
    chats_counted k
      (snd (while_tool_calls W fuel cancel tools (k, messages) final_text
              message_ self)).
Proof.
  induction fuel as [|fuel IH]; intros k messages final_text message_ self Hlen.
  - cbn [while_tool_calls]. destruct (tool_calls message_);
      now apply chats_counted_no_chat.
  - rewrite while_step.
    destruct (tool_calls message_) as [|c calls] eqn:E;
      [now apply chats_counted_no_chat|].
    unfold bind at 1.
    pose proof (batch_no_chat W cancel (c :: calls) (k, messages) self) as Hnone.
    destruct (for_each _ _ (c :: calls) self) as [[[st1|e| |] self1] t1] eqn:Erun;
      cbn [snd] in *; try (now apply chats_counted_no_chat).
    destruct (batch_return_run _ _ _ _ _ _ _ _ Erun)
      as (outs & Hgo & Hcomb & -> & -> & ->).
    assert (Hlen' : length (batch_transcript W messages (combine (c :: calls) outs))
                    = 1 + 2 * (k + length (c :: calls))).
    { rewrite batch_transcript_length, Hcomb, Hlen. lia. }
    unfold bind at 1. rewrite chat_run. cbn [snd].
    destruct (chat_completions_create W _ tools) as [response|e].
    + specialize (IH _ _ (append_content final_text response) response self Hlen').
      destruct (while_tool_calls W fuel cancel tools _ _ response self)
        as [[r3 self3] t3]. cbn [snd] in *.
      apply chats_counted_app; [now apply chats_counted_no_chat|].
      rewrite batch_script_dispatched, Hcomb.
      now apply chats_counted_chat.
    + cbn [snd].
      apply chats_counted_app; [now apply chats_counted_no_chat|].
      rewrite batch_script_dispatched, Hcomb.
      apply chats_counted_chat; [exact Hlen'|].
      now apply chats_counted_no_chat.
Qed.

Lemma increasing_weaken prev prev' l :
  prev' <= prev -> increasing prev l -> increasing prev' l.
Proof.
  destruct l as [|x l]; [trivial|]. intros Hle [Hx Hl]. split; [lia|exact Hl].
Qed.

Lemma increasing_above prev l : increasing prev l -> Forall (fun x => prev < x) l.
Proof.
  revert prev. induction l as [|x l IH]; intros prev H; [constructor|].
  destruct H as [Hx Hl]. constructor; [exact Hx|].
  apply IH. eapply increasing_weaken; [|exact Hl]. lia.
Qed.

Lemma increasing_nodup prev l : increasing prev l -> NoDup l.
Proof.
  revert prev. induction l as [|x l IH]; intros prev H; [constructor|].
  destruct H as [Hx Hl]. constructor; [|exact (IH _ Hl)].
  intros Hin. pose proof (increasing_above _ _ Hl) as Hall.
  rewrite Forall_forall in Hall. specialize (Hall _ Hin). lia.
Qed.

Lemma transcript_lengths_app t1 t2 :
  transcript_lengths (t1 ++ t2) = transcript_lengths t1 ++ transcript_lengths t2.
Proof. unfold transcript_lengths. now rewrite chats_of_app, map_app. Qed.

Lemma while_increasing cancel tools fuel :
  forall k messages final_text message_ self,
    increasing (length messages)
      (transcript_lengths
         (snd (while_tool_calls W fuel cancel tools (k, messages) final_text
                 message_ self))).
Proof.
  induction fuel as [|fuel IH]; intros k messages final_text message_ self.
  - cbn [while_tool_calls]. destruct (tool_calls message_); exact I.
  - rewrite while_step.
    destruct (tool_calls message_) as [|c calls] eqn:E; [exact I|].
    unfold bind at 1.
    pose proof (batch_no_chat W cancel (c :: calls) (k, messages) self) as Hnone.
    destruct (for_each _ _ (c :: calls) self) as [[[st1|e| |] self1] t1] eqn:Erun;
      cbn [snd] in *;
      try (unfold transcript_lengths; rewrite Hnone; exact I).
    destruct (batch_return_run _ _ _ _ _ _ _ _ Erun)
      as (outs & Hgo & Hcomb & -> & -> & ->).
    pose proof (batch_transcript_length (combine (c :: calls) outs) messages) as Hlen.
    rewrite Hcomb in Hlen. cbn [length] in Hlen.
    unfold bind at 1. rewrite chat_run. cbn [snd].
    destruct (chat_completions_create W _ tools) as [response|e].
    + specialize (IH (k + length (c :: calls))
                     (batch_transcript W messages (combine (c :: calls) outs))
                     (append_content final_text response) response self).
      destruct (while_tool_calls W fuel cancel tools _ _ response self)
        as [[r3 self3] t3]. cbn [snd] in *.
      rewrite transcript_lengths_app. unfold transcript_lengths at 1.
      rewrite Hnone. cbn [map List.app].
      change (transcript_lengths (EvChat ?m tools :: t3))
        with (length m :: transcript_lengths t3).
      split; [lia|exact IH].
    + cbn [snd]. rewrite transcript_lengths_app. unfold transcript_lengths at 1.
      rewrite Hnone. cbn [map List.app].
      change (transcript_lengths [EvChat ?m tools]) with [length m].
      split; [lia|exact I].
Qed.

Lemma batch_recorded_plain self cancel calls :
  forall k outs,
    batch_goes_through W self cancel k calls outs ->
    Forall (fun d => plain_name (function_name (fst d)) = true)
           (map (recorded W) (combine calls outs)).
Proof.
  induction calls as [|c calls IH]; intros k [|out outs] H; try contradiction;
    [constructor|].
  destruct H as [Hfirst Hrest]. cbn [combine map]. constructor.
  - unfold dispatch, parse_flat in Hfirst.
    destruct (json_loads W _) as [tool_args|e]; [|discriminate].
    destruct (re_match _) as [[digits tool_name]|] eqn:Ematch; [|discriminate].
    destruct (nth_error _ _); [|discriminate].
    destruct (get _ _); [|discriminate].
    destruct (cancel k); [discriminate|].
    destruct (call_tool W k _ _ _); [|discriminate].
    injection Hfirst as <-. cbn.
    destruct (re_match_inv _ _ _ Ematch) as (r & _ & _ & _ & Hplain & _).
    exact Hplain.
  - exact (IH _ _ Hrest).
Qed.

Lemma query_then_pairs_batch query_ messages self cancel k calls outs :
  query_then_pairs query_ messages ->
  batch_goes_through W self cancel k calls outs ->
  query_then_pairs query_ (batch_transcript W messages (combine calls outs)).
Proof.
  intros (done & -> & Hdone) Hgo.
  exists (done ++ map (recorded W) (combine calls outs)). split.
  - rewrite batch_transcript_flat, flat_map_app. cbn [List.app]. f_equal. f_equal.
    now rewrite flat_map_concat_map, flat_map_concat_map, map_map.
  - apply Forall_app. split; [exact Hdone|].
    eapply batch_recorded_plain. exact Hgo.
Qed.

Lemma while_query_then_pairs query_ cancel tools fuel :
  forall k messages final_text message_ self,
    query_then_pairs query_ messages ->
    Forall (fun c => query_then_pairs query_ (fst c))
      (chats_of (snd (while_tool_calls W fuel cancel tools (k, messages)
                        final_text message_ self))).
Proof.
  induction fuel as [|fuel IH]; intros k messages final_text message_ self Hm.
  - cbn [while_tool_calls]. destruct (tool_calls message_); constructor.
  - rewrite while_step.
    destruct (tool_calls message_) as [|c calls] eqn:E; [constructor|].
    unfold bind at 1.
    pose proof (batch_no_chat W cancel (c :: calls) (k, messages) self) as Hnone.
    destruct (for_each _ _ (c :: calls) self) as [[[st1|e| |] self1] t1] eqn:Erun;
      cbn [snd] in *; try (rewrite Hnone; constructor).
    destruct (batch_return_run _ _ _ _ _ _ _ _ Erun)
      as (outs & Hgo & Hcomb & -> & -> & ->).
    pose proof (query_then_pairs_batch _ _ _ _ _ _ _ Hm Hgo) as Hm'.
    unfold bind at 1. rewrite chat_run. cbn [snd].
    destruct (chat_completions_create W _ tools) as [response|e].
    + specialize (IH (k + length (c :: calls)) _
                     (append_content final_text response) response self Hm').
      destruct (while_tool_calls W fuel cancel tools _ _ response self)
        as [[r3 self3] t3]. cbn [snd] in *.
      rewrite chats_of_app, Hnone. cbn. constructor; assumption.
    + cbn [snd]. rewrite chats_of_app, Hnone. cbn. now repeat constructor.
Qed.

End ChatFacts.

(** X12: each time the model is called, the transcript it is handed holds
    one entry for the query and exactly two for each tool call dispatched
    so far in the request. *)
Theorem transcript_length_at_model_call
  (W : World) (fuel : nat) (cancel : nat -> bool) (query_ : string)
  (self : MCPClient) (pre post : list event)
  (messages : list message) (tools : list ToolSpec)
  (Hcall : snd (process_query W fuel cancel query_ self)
           = pre ++ EvChat messages tools :: post) :
  length messages = 1 + 2 * length (dispatched_of pre).
Proof.
  assert (H : chats_counted 0 (snd (process_query W fuel cancel query_ self))).
  { rewrite process_query_run.
    destruct (is_empty (sessions self)); [now apply chats_counted_no_chat|].
    cbn zeta.
    destruct (chat_completions_create W _ _) as [response|e].
    - pose proof (while_chats_counted W cancel (build_catalog (settion_tools self))
                    fuel 0 [UserMessage query_] [] response self eq_refl) as Hw.
      destruct (while_tool_calls W fuel cancel _ _ _ response self)
        as [[r self2] t2]. cbn [snd] in *.
      now apply chats_counted_chat.
    - cbn [snd]. apply chats_counted_chat; [reflexivity|].
      now apply chats_counted_no_chat. }
  exact (H _ _ _ _ Hcall).
Qed.

Lemma transcript_length_at_model_call_witness :
  length [UserMessage "cats?";
          AssistantMessage [call_with "call_1" "search"];
          ToolMessage "call_1" "3 results"]
  = 1 + 2 * length (dispatched_of
                      [EvChat [UserMessage "cats?"] catalog_a;
                       EvCallTool provider_a "search" (JObject []);
                       EvMessages [UserMessage "cats?";
                                   AssistantMessage [call_with "call_1" "search"]];
                       EvMessages [UserMessage "cats?";
                                   AssistantMessage [call_with "call_1" "search"];
                                   ToolMessage "call_1" "3 results"]]).
Proof.
  exact (transcript_length_at_model_call scenario_A 3 (fun _ => false) "cats?"
           (connected_a "cats?")
           [EvChat [UserMessage "cats?"] catalog_a;
            EvCallTool provider_a "search" (JObject []);
            EvMessages [UserMessage "cats?";
                        AssistantMessage [call_with "call_1" "search"]];
            EvMessages [UserMessage "cats?";
                        AssistantMessage [call_with "call_1" "search"];
                        ToolMessage "call_1" "3 results"]]
           []
           [UserMessage "cats?";
            AssistantMessage [call_with "call_1" "search"];
            ToolMessage "call_1" "3 results"]
           catalog_a eq_refl).
Defined.

(** X13: the model is never called twice with the same transcript.  The
    lengths of the transcripts handed to the model grow strictly from one
    call to the next, so the transcripts of one request are pairwise
    distinct. *)
Theorem transcripts_grow_strictly
  (W : World) (fuel : nat) (cancel : nat -> bool) (query_ : string)
  (self : MCPClient) :
  let tr := snd (process_query W fuel cancel query_ self) in
  increasing 0 (transcript_lengths tr) /\
  NoDup (map fst (chats_of tr)).
Proof.
  cbn zeta.
  assert (H : increasing 0
                (transcript_lengths (snd (process_query W fuel cancel query_ self)))).
  { rewrite process_query_run.
    destruct (is_empty (sessions self)); [exact I|]. cbn zeta.
    destruct (chat_completions_create W _ _) as [response|e].
    - pose proof (while_increasing W cancel (build_catalog (settion_tools self))
                    fuel 0 [UserMessage query_] [] response self) as Hw.
      destruct (while_tool_calls W fuel cancel _ _ _ response self)
        as [[r self2] t2]. cbn [snd] in *.
      split; [cbn; lia|exact Hw].
    - cbn. split; [lia|exact I]. }
  split; [exact H|].
  apply increasing_nodup in H. unfold transcript_lengths in H.
  rewrite <- (map_map fst (@length message)) in H.
  now apply NoDup_map_inv in H.
Qed.

(** X14: each transcript handed to the model is the user query followed by
    one pair of entries per call done so far: an assistant entry that
    records a single tool call, under the local tool name -- the second
    group of the pattern, not empty and without line feed -- and the tool
    entry that carries the id of that call. *)
Theorem transcript_is_query_then_pairs
  (W : World) (fuel : nat) (cancel : nat -> bool) (query_ : string)
  (self : MCPClient) :
  Forall (fun c => query_then_pairs query_ (fst c))
    (chats_of (snd (process_query W fuel cancel query_ self))).
Proof.
  assert (H0 : query_then_pairs query_ [UserMessage query_]).
  { exists []. split; [reflexivity|constructor]. }
  rewrite process_query_run.
  destruct (is_empty (sessions self)); [constructor|]. cbn zeta.
  destruct (chat_completions_create W _ _) as [response|e].
  - pose proof (while_query_then_pairs W query_ cancel
                  (build_catalog (settion_tools self)) fuel 0 _ [] response self H0)
      as Hw.
    destruct (while_tool_calls W fuel cancel _ _ _ response self)
      as [[r self2] t2]. cbn in *. constructor; assumption.
  - cbn. now repeat constructor.
Qed.

(** ** Replies *)

Section ReplyFacts.

Variable W : World.

Lemma chats_of_registry tr :
  Forall (fun ev => registry_event ev = true) tr -> chats_of tr = [].
Proof.
  induction 1 as [|ev tr Hev _ IH]; [reflexivity|].
  destruct ev; cbn in *; try discriminate; exact IH.
Qed.

Lemma chats_of_close_scripts stacks :
  chats_of (flat_map (close_script W) stacks) = [].
Proof.
  induction stacks as [|[n es] stacks IH]; [reflexivity|].
  cbn [flat_map]. rewrite chats_of_app, IH. cbn.
  destruct (aclose W es); reflexivity.
Qed.

(** A request that succeeds is a conversation loop that returned. *)
Lemma handle_query_return_inv fuel user_query out final tr :
  handle_query W fuel user_query = (Return out, final, tr) ->
  exists self1 t0 t1,
    connect_to_sse_servers W (MCPClient_init (mcp_config user_query))
    = (Return tt, self1, t0) /\
    process_query W fuel (deadline_expires W 300) (query user_query) self1
    = (Return out, self1, t1) /\
    tr = t0 ++ t1 ++ flat_map (close_script W) (exit_stacks self1).
Proof.
  rewrite handle_query_unfold, guarded_body_unfold.
  unfold request_body, bind.
  destruct (connect_to_sse_servers W _) as [[[[]|e| |] self1] t0]; try discriminate.
  unfold except_timeout, wait_for.
  pose proof (process_query_reads W fuel (deadline_expires W 300)
                (query user_query) self1) as Hreads.
  destruct (process_query W fuel _ (query user_query) self1)
    as [[[a|e| |] self2] t1] eqn:E; cbn in Hreads; subst self2;
    try destruct e; try discriminate.
  intros H. injection H as <- _ <-.
  exists self1, t0, t1.
  split; [reflexivity|]. split; [exact E|]. now rewrite <- app_assoc.
Qed.

(** A loop that was cancelled was cancelled during a tool call. *)
Lemma batch_cancelled cancel calls :
  forall st self self' tr,
    for_each (handle_tool_call W cancel) st calls self = (Cancelled, self', tr) ->
    exists pre session tool_name tool_args,
      tr = pre ++ [EvCallTool session tool_name tool_args].
Proof.
  induction calls as [|tool_call calls IH]; intros [k messages] self self' tr H;
    [discriminate|].
  cbn [for_each] in H. unfold bind in H. rewrite handle_tool_call_run in H.
  destruct (json_loads W _) as [tool_args|e]; [|discriminate].
  destruct (re_match _) as [[server_index tool_name]|]; [|discriminate].
  destruct (nth_error _ _) as [server_name|]; [|discriminate].
  destruct (get _ _) as [session|]; [|discriminate].
  cbn zeta in H. destruct (cancel k).
  - injection H as _ <-. now exists [], session, tool_name, tool_args.
  - destruct (call_tool W k session tool_name tool_args) as [result_|e];
      [|discriminate].
    destruct (for_each _ _ calls self) as [[r2 self2] t2] eqn:E2.
    destruct r2; try discriminate. injection H as _ <-.
    destruct (IH _ _ _ _ E2) as (pre & s & n & a & ->).
    eexists (_ :: _ :: _ :: pre), s, n, a. reflexivity.
Qed.

Lemma while_cancelled cancel tools fuel :
  forall st final_text message_ self self' tr,
    while_tool_calls W fuel cancel tools st final_text message_ self
    = (Cancelled, self', tr) ->
    exists pre session tool_name tool_args,
      tr = pre ++ [EvCallTool session tool_name tool_args].
Proof.
  induction fuel as [|fuel IH]; intros st final_text message_ self self' tr H.
  - cbn [while_tool_calls] in H. destruct (tool_calls message_); discriminate.
  - rewrite while_step in H.
    destruct (tool_calls message_) as [|c calls]; [discriminate|].
    unfold bind at 1 in H.
    destruct (for_each _ st (c :: calls) self) as [[[st1|e| |] self1] t1] eqn:Erun;
      try discriminate.
    + unfold bind at 1 in H. rewrite chat_run in H.
      destruct (chat_completions_create W (snd st1) tools) as [response|e];
        [|discriminate].
      destruct (while_tool_calls W fuel cancel tools st1 _ response self1)
        as [[r3 self3] t3] eqn:E.
      destruct r3; try discriminate. injection H as _ <-.
      destruct (IH _ _ _ _ _ _ E) as (pre & s & n & a & ->).
      exists (t1 ++ EvChat (snd st1) tools :: pre), s, n, a.
      now rewrite <- app_assoc.
    + injection H as _ <-. eapply batch_cancelled. exact Erun.
Qed.

Lemma process_query_cancelled fuel cancel query_ self self' tr :
  process_query W fuel cancel query_ self = (Cancelled, self', tr) ->
  exists pre session tool_name tool_args,
    tr = pre ++ [EvCallTool session tool_name tool_args].
Proof.
  rewrite process_query_run.
  destruct (is_empty (sessions self)); [discriminate|]. cbn zeta.
  destruct (chat_completions_create W _ _) as [response|e]; [|discriminate].
  destruct (while_tool_calls W fuel cancel _ _ _ response self)
    as [[r self2] t2] eqn:E.
  intros H. injection H as -> _ <-.
  destruct (while_cancelled _ _ _ _ _ _ _ _ _ E) as (pre & s & n & a & ->).
  now exists (EvChat [UserMessage query_] (build_catalog (settion_tools self)) :: pre),
    s, n, a.
Qed.

(** Every response but the last asked for tools. *)
Lemma while_asks_until_last cancel tools fuel :
  forall st final_text message_ self out self' tr later,
    while_tool_calls W fuel cancel tools st final_text message_ self
    = (Return out, self', tr) ->
    responses_of W tr = map Ok later ->
    Forall (fun response => tool_calls response <> [])
           (removelast (message_ :: later)).
Proof.
  induction fuel as [|fuel IH];
    intros st final_text message_ self out self' tr later H Hresp.
  - cbn [while_tool_calls] in H.
    destruct (tool_calls message_); [|discriminate].
    injection H as _ _ <-. destruct later; [constructor|discriminate].
  - rewrite while_step in H.
    destruct (tool_calls message_) as [|c calls] eqn:Ecalls.
    { injection H as _ _ <-. destruct later; [constructor|discriminate]. }
    unfold bind at 1 in H.
    pose proof (batch_no_chat W cancel (c :: calls) st self) as Hnone.
    destruct (for_each _ st (c :: calls) self) as [[[st1|e| |] self1] t1];
      try discriminate.
    unfold bind at 1 in H. rewrite chat_run in H.
    destruct (chat_completions_create W (snd st1) tools) as [response|e] eqn:Echat;
      [|discriminate].
    destruct (while_tool_calls W fuel cancel tools st1 _ response self1)
      as [[r3 self3] t3] eqn:E3.
    injection H as -> _ <-. cbn [snd] in Hnone.
    unfold responses_of in Hresp. rewrite chats_of_app, Hnone in Hresp.
    change (chats_of ([EvChat (snd st1) tools] ++ t3))
      with ((snd st1, tools) :: chats_of t3) in Hresp.
    simpl in Hresp. rewrite Echat in Hresp.
    destruct later as [|l1 later]; [discriminate|].
    injection Hresp as <- Hresp.
    change (removelast (message_ :: response :: later))
      with (message_ :: removelast (response :: later)).
    constructor; [rewrite Ecalls; discriminate|].
    exact (IH _ _ _ _ _ _ _ _ E3 Hresp).
Qed.

Lemma process_query_asks_until_last fuel cancel query_ self out self' tr first later :
  process_query W fuel cancel query_ self = (Return out, self', tr) ->
  responses_of W tr = Ok first :: map Ok later ->
  Forall (fun response => tool_calls response <> [])
         (removelast (first :: later)).
Proof.
  rewrite process_query_run.
  destruct (is_empty (sessions self)); [discriminate|]. cbn zeta.
  destruct (chat_completions_create W _ _) as [first'|e] eqn:Echat; [|discriminate].
  destruct (while_tool_calls W fuel cancel _ _ _ first' self) as [[r self2] t2] eqn:E.
  intros H Hresp. injection H as -> _ <-.
  unfold responses_of in Hresp.
  change (chats_of (EvChat [UserMessage query_] (build_catalog (settion_tools self))
                      :: t2))
    with (([UserMessage query_], build_catalog (settion_tools self)) :: chats_of t2)
    in Hresp.
  simpl in Hresp. rewrite Echat in Hresp.
  injection Hresp as <- Hresp.
  exact (while_asks_until_last _ _ _ _ _ _ _ _ _ _ _ E Hresp).
Qed.

End ReplyFacts.

(** X15: what a successful request replies.  The reply is the
    concatenation, in order, of the non-empty texts of the responses the
    model gave after the first one -- the text of the first response is not
    in it -- and the last response of the model is the first that asks for
    no tool. *)
Theorem reply_is_later_texts
  (W : World) (fuel : nat) (user_query : UserQuery)
  (out : string) (final : MCPClient) (tr : list event)
  (Hreply : handle_query W fuel user_query = (Return out, final, tr)) :
  exists first later,
    responses_of W tr = Ok first :: map Ok later /\
    out = String.concat "" (fold_left append_content later []) /\
    tool_calls (last later first) = [] /\
    Forall (fun response => tool_calls response <> []) (removelast (first :: later)).
Proof.
  destruct (handle_query_return_inv W _ _ _ _ _ Hreply)
    as (self1 & t0 & t1 & Hconnect & Hloop & ->).
  assert (Ht0 : chats_of t0 = []).
  { apply chats_of_registry.
    pose proof (connect_emits W (MCPClient_init (mcp_config user_query))) as H.
    now rewrite Hconnect in H. }
  destruct (process_query_output W _ _ _ _ _ _ _ Hloop)
    as (first & later & Hresp & Hout & Hlast).
  exists first, later. repeat split; try assumption.
  - unfold responses_of in *.
    now rewrite !chats_of_app, Ht0, chats_of_close_scripts, List.app_nil_r.
  - eapply process_query_asks_until_last; eassumption.
Qed.

Lemma reply_is_later_texts_witness :
  exists first later,
    responses_of scenario_A (snd (handle_query scenario_A 3 (one_provider "cats?")))
    = Ok first :: map Ok later /\
    "Found 3 results." = String.concat "" (fold_left append_content later []).
Proof.
  destruct (reply_is_later_texts scenario_A 3 (one_provider "cats?") _ _ _ eq_refl)
    as (first & later & Hresp & Hout & _).
  exists first, later. split; assumption.
Defined.

(** X16: without a registered session nothing is asked of the model.
    When the connect phase returns with an empty session map -- no
    provider, or none of type ["sse"], or none that connected -- the
    request is refused: no call of the model, no tool call, nothing to
    close, and the caller is answered with status 500 and the detail of
    the status-400 refusal. *)
Theorem refused_without_session
  (W : World) (fuel : nat) (user_query : UserQuery)
  (self1 : MCPClient) (t0 : list event)
  (Hconnect : connect_to_sse_servers W (MCPClient_init (mcp_config user_query))
              = (Return tt, self1, t0))
  (Hnone : sessions self1 = []) :
  handle_query W fuel user_query
  = (Raise (HTTPException 500 "400: No active MCP connections"), cleared self1,
     t0 ++ [EvLogError "Error processing query: 400: No active MCP connections"]) /\
  chats_of t0 = [] /\ dispatched_of t0 = [] /\ closes_of t0 = [].
Proof.
  pose proof (connect_keeps W _ (init_ok (mcp_config user_query))) as Hok.
  pose proof (connect_emits W (MCPClient_init (mcp_config user_query))) as Hemits.
  rewrite Hconnect in Hok, Hemits. cbn [fst snd] in Hok, Hemits.
  destruct Hok as (Hstacks & _).
  rewrite (no_session_always_answered_500 W fuel user_query self1 t0 Hconnect Hnone).
  rewrite Hstacks, Hnone. cbn [flat_map]. rewrite List.app_nil_r.
  repeat split.
  - now apply chats_of_registry.
  - clear -Hemits. induction Hemits as [|ev tr Hev _ IH]; [reflexivity|].
    destruct ev; cbn in *; try discriminate; exact IH.
  - clear -Hemits. induction Hemits as [|ev tr Hev _ IH]; [reflexivity|].
    destruct ev; cbn in *; try discriminate; exact IH.
Qed.

Lemma refused_without_session_witness :
  handle_query scenario_A 3 (stdio_only "cats?")
  = (Raise (HTTPException 500 "400: No active MCP connections"),
     cleared (MCPClient_init (mcp_config (stdio_only "cats?"))),
     [] ++ [EvLogError "Error processing query: 400: No active MCP connections"]).
Proof.
  exact (proj1 (refused_without_session scenario_A 3 (stdio_only "cats?")
                  (MCPClient_init (mcp_config (stdio_only "cats?"))) []
                  eq_refl eq_refl)).
Defined.

(** X17: what an expired deadline does.  Whenever the deadline expires in
    the conversation loop, the last thing the loop did is the dispatch of a
    tool call, the one in flight; nothing is added to the transcript for
    it; the timeout is logged, the sessions are closed and the caller is
    answered with status 500 and the detail of the status-504 timeout. *)
Theorem deadline_cancels_a_tool_call
  (W : World) (fuel : nat) (user_query : UserQuery)
  (self1 self2 : MCPClient) (t0 t1 : list event)
  (Hconnect : connect_to_sse_servers W (MCPClient_init (mcp_config user_query))
              = (Return tt, self1, t0))
  (Hexpired : process_query W fuel (deadline_expires W 300) (query user_query) self1
              = (Cancelled, self2, t1)) :
  (exists pre session tool_name tool_args,
      t1 = pre ++ [EvCallTool session tool_name tool_args]) /\
  handle_query W fuel user_query
  = (Raise (HTTPException 500 "504: Request timeout"), cleared self2,
     t0 ++ (t1 ++ [EvDeadline])
        ++ [EvLogError "Error processing query: 504: Request timeout"]
        ++ flat_map (close_script W) (exit_stacks self2)).
Proof.
  split.
  - eapply process_query_cancelled. exact Hexpired.
  - exact (deadline_always_answered_500 W fuel user_query self1 t0 self2 t1
             Hconnect Hexpired).
Qed.

Lemma deadline_cancels_a_tool_call_witness :
  fst (fst (handle_query slow_tool 3 (one_provider "cats?")))
  = Raise (HTTPException 500 "504: Request timeout").
Proof.
  destruct (deadline_cancels_a_tool_call slow_tool 3 (one_provider "cats?")
              (connected_a "cats?") (connected_a "cats?")
              [EvConnect provider_a; EvListTools provider_a]
              [EvChat [UserMessage "cats?"] catalog_a;
               EvCallTool provider_a "search" (JObject [])]
              eq_refl eq_refl) as [_ H].
  rewrite H. reflexivity.
Defined.
